(** * match: resampling statistics of [src/match/match_.py]

    A shallow embedding of the functions of [match_.py]
    ([match], [compute_p_values_and_fdrs], [compute_p_value],
    [compute_confidence_interval], [permute_and_score], [score]) and the
    properties of them that the specification states.

    Conventions of the embedding.
    - A float64 score is a real number ([R]); the two places where the code
      can produce a not-a-number (0/0 on an empty null pool, the standard
      deviation of an empty row) are kept, as the constructor [nan] of
      [float64].
    - numpy arrays live in a store ([heap]): a Python variable holds a
      reference ([loc]), [array(target)] allocates a copy and [shuffle]
      writes through the reference.
    - The global numpy random generator is a component of the state; what
      numpy, scipy and statsmodels compute is taken from the class
      [Externals].
    - Exceptions are values of [exn]; a computation is a function from the
      state to an outcome. *)

From Stdlib Require Import Reals Lra Lia ZArith List String Bool.
From stdpp Require Import gmap.
Import ListNotations.
Local Open Scope string_scope.
Local Open Scope list_scope.

(** ** Numbers *)

(** A float64 as the code can produce it: a real number or not-a-number. *)
Inductive float64 : Type :=
| nan
| fin (r : R).

Definition Rleb (x y : R) : bool := if Rle_dec x y then true else false.
Definition Rltb (x y : R) : bool := if Rlt_dec x y then true else false.

(** Python truth value of a float: every float but zero is true, [nan]
    included. *)
Definition truthy (x : float64) : bool :=
  match x with
  | nan => true
  | fin r => if Req_dec_T r 0 then false else true
  end.

(** [a < b] on float64: false when an operand is [nan]. *)
Definition f64_ltb (a b : float64) : bool :=
  match a, b with
  | fin x, fin y => Rltb x y
  | _, _ => false
  end.

(** [count / size] for the count of the true entries of a comparison with
    an array of [size] entries (numpy true division: 0/0 is [nan]; when the
    size is zero the comparison has no entry, so no other division by zero
    occurs). *)
Definition np_ratio (count size : nat) : float64 :=
  match size with
  | O => nan
  | S _ => fin (INR count / INR size)
  end.

(** ** Exceptions and outcomes *)

Inductive exn : Type :=
| TypeError
| ValueError
| IndexError
| AxisError
| IllTyped.   (* an argument that is not of the array type its docstring gives *)

Inductive res (A : Type) : Type :=
| Ok (a : A)
| Err (e : exn).
Arguments Ok {A} a.
Arguments Err {A} e.

Definition rbind {A B} (m : res A) (k : A -> res B) : res B :=
  match m with
  | Ok a => k a
  | Err e => Err e
  end.

Declare Scope res_scope.
Delimit Scope res_scope with res.
Notation "'do' x <- m ; k" := (rbind m (fun x => k))
  (at level 10, x name, m at level 100, k at level 200) : res_scope.

(** ** compute_p_value (lines 193-212) *)

(** [(value <= random_values).sum()] *)
Definition count_le_right (value : R) (random_values : list R) : nat :=
  List.length (List.filter (fun x => Rleb value x) random_values).

(** [(random_values <= value).sum()] *)
Definition count_le_left (random_values : list R) (value : R) : nat :=
  List.length (List.filter (fun x => Rleb x value) random_values).

Definition compute_p_value (value : R) (random_values : list R)
    (greater : bool) : float64 :=
  let size := List.length random_values in
  if greater then
    let p_value := np_ratio (count_le_right value random_values) size in
    if negb (truthy p_value) then fin (1 / INR size) else p_value
  else
    let p_value := np_ratio (count_le_left random_values value) size in
    if negb (truthy p_value) then fin (1 / INR size) else p_value.

(** [where(a < b, a, b)] on two arrays of one shape (line 183, line 188). *)
Definition where_lt (a b : list float64) : list float64 :=
  List.map (fun ab => if f64_ltb (fst ab) (snd ab) then fst ab else snd ab)
           (List.combine a b).

(** ** Calling a Python function *)

(** The dynamically typed values that reach [compute_p_value] through
    [apply_along_axis]. *)
Inductive pyval : Type :=
| PyFloat (x : float64)
| PyArray (a : list R)
| PyF64Array (a : list float64)
| PyBool (b : bool)
| PyDict (d : list (string * bool)).

(** A parameter: its name and its default, if it has one. *)
Definition param : Type := string * option pyval.

Fixpoint index_of (name : string) (ps : list param) : option nat :=
  match ps with
  | [] => None
  | (n, _) :: ps' =>
      if String.eqb n name then Some O
      else option_map S (index_of name ps')
  end.

(** One keyword argument: the name must be a parameter and its slot must be
    free. *)
Definition bind_keyword (ps : list param) (slots : list (option pyval))
    (kw : string * pyval) : res (list (option pyval)) :=
  match index_of (fst kw) ps with
  | None => Err TypeError            (* unexpected keyword argument *)
  | Some i =>
      match List.nth i slots None with
      | Some _ => Err TypeError      (* multiple values for argument *)
      | None => Ok (<[ i := Some (snd kw) ]> slots)
      end
  end.

Fixpoint bind_keywords (ps : list param) (slots : list (option pyval))
    (kws : list (string * pyval)) : res (list (option pyval)) :=
  match kws with
  | [] => Ok slots
  | kw :: kws' =>
      (do slots' <- bind_keyword ps slots kw;
       bind_keywords ps slots' kws')%res
  end.

(** A slot still empty takes the default; a parameter without one is
    missing. *)
Fixpoint fill_defaults (ps : list param) (slots : list (option pyval))
    : res (list pyval) :=
  match ps, slots with
  | [], _ => Ok []
  | (_, d) :: ps', s :: slots' =>
      match s, d with
      | Some v, _ => (do vs <- fill_defaults ps' slots'; Ok (v :: vs))%res
      | None, Some v => (do vs <- fill_defaults ps' slots'; Ok (v :: vs))%res
      | None, None => Err TypeError  (* missing required positional argument *)
      end
  | _ :: _, [] => Err TypeError
  end.

(** Python's binding of the positional and keyword arguments of a call to
    the parameters of [def f(p1, ..., pn)]. *)
Definition bind_arguments (ps : list param) (args : list pyval)
    (kwargs : list (string * pyval)) : res (list pyval) :=
  if Nat.ltb (List.length ps) (List.length args) then
    Err TypeError                    (* too many positional arguments *)
  else
    let slots :=
      List.map Some args ++
      List.repeat None (List.length ps - List.length args) in
    (do slots' <- bind_keywords ps slots kwargs;
     fill_defaults ps slots')%res.

Record pyfunction : Type := {
  parameters : list param;
  body : list pyval -> res pyval
}.

Definition call (f : pyfunction) (args : list pyval)
    (kwargs : list (string * pyval)) : res pyval :=
  (do bound <- bind_arguments (parameters f) args kwargs; body f bound)%res.

(** Truth value of a Python object in [if greater:]; an array of more than
    one element has none. *)
Definition py_truth (v : pyval) : res bool :=
  match v with
  | PyFloat x => Ok (truthy x)
  | PyArray [] => Ok false
  | PyArray [r] => Ok (truthy (fin r))
  | PyArray _ => Err ValueError
  | PyF64Array [] => Ok false
  | PyF64Array [x] => Ok (truthy x)
  | PyF64Array _ => Err ValueError
  | PyBool b => Ok b
  | PyDict d => Ok (negb (Nat.eqb (List.length d) 0))
  end.

(** [compute_p_value] with a whole array as [value]: the comparison
    broadcasts, [sum] counts over all entries. *)
Definition compute_p_value_array (values : list R) (random_values : list R)
    (greater : bool) : res float64 :=
  let size := List.length random_values in
  let cmp := fun v x => if greater then Rleb v x else Rleb x v in
  let broadcast : res (list bool) :=
    if Nat.eqb (List.length values) size then
      Ok (List.map (fun vx => cmp (fst vx) (snd vx))
                   (List.combine values random_values))
    else match values, random_values with
         | [v], _ => Ok (List.map (cmp v) random_values)
         | _, [x] => Ok (List.map (fun v => cmp v x) values)
         | _, _ => Err ValueError    (* operands could not be broadcast *)
         end in
  (do bs <- broadcast;
   let p_value := np_ratio (List.length (List.filter (fun b : bool => b) bs)) size in
   Ok (if negb (truthy p_value) then fin (1 / INR size) else p_value))%res.

(** [def compute_p_value(value, random_values, greater=True)] as a Python
    function object. *)
Definition py_compute_p_value : pyfunction := {|
  parameters :=
    [("value", None); ("random_values", None);
     ("greater", Some (PyBool true))];
  body := fun bound =>
    match bound with
    | [PyFloat (fin v); PyArray rv; g] =>
        (do greater <- py_truth g;
         Ok (PyFloat (compute_p_value v rv greater)))%res
    | [PyFloat nan; PyArray rv; g] =>   (* no comparison with nan is true *)
        (do greater <- py_truth g;
         let p_value := np_ratio 0 (List.length rv) in
         Ok (PyFloat (if negb (truthy p_value)
                      then fin (1 / INR (List.length rv)) else p_value)))%res
    | [PyArray vs; PyArray rv; g] =>
        (do greater <- py_truth g;
         do p <- compute_p_value_array vs rv greater;
         Ok (PyFloat p))%res
    | _ => Err IllTyped
    end
|}.

(** [apply_along_axis] of numpy on a one-dimensional [arr], with the extra
    positional arguments [args] and the extra keyword arguments [kwargs]:
    the only slice along axis 0 is [arr] itself, and numpy calls [func1d] on
    it, followed by [args] and [kwargs]. *)
Definition apply_along_axis_1d (func1d : pyfunction) (axis : Z)
    (arr : list R) (args : list pyval) (kwargs : list (string * pyval))
    : res pyval :=
  if (Z.eqb axis 0 || Z.eqb axis (-1))%bool then
    call func1d (PyArray arr :: args) kwargs
  else Err AxisError.

Definition as_f64_array (v : pyval) : res (list float64) :=
  match v with
  | PyFloat x => Ok [x]
  | PyArray a => Ok (List.map fin a)
  | PyF64Array a => Ok a
  | _ => Err IllTyped
  end.

(** ** Arrays, the store and the random generator *)

Definition loc : Type := positive.

(** A numpy array of floats, of one or of two dimensions (a list of rows). *)
Inductive ndarray : Type :=
| Arr1 (v : list R)
| Arr2 (rows : list (list R)).

(** What the code takes from outside this file: numpy's random generator,
    scipy's [norm.ppf], statsmodels' [multipletests], and the helper
    [get_top_and_bottom_indices], whose source is not part of [match_.py]. *)
Class Externals : Type := {
  rng_state : Type;
  (** [numpy.random.seed(s)]: the generator state after seeding with [s] *)
  np_seed : Z -> rng_state;
  (** [numpy.random.choice(a, size)]: [size] indices and the next state *)
  np_choice : nat -> nat -> rng_state -> list nat * rng_state;
  (** [numpy.random.shuffle(x)]: the shuffled contents and the next state *)
  np_shuffle : list R -> rng_state -> list R * rng_state;
  (** [scipy.stats.norm.ppf]: the inverse of the standard normal
      distribution function, on the probabilities strictly between 0 and 1 *)
  norm_ppf : R -> R;
  (** [multipletests(p, method='fdr_bh')[1]] *)
  fdr_bh : list float64 -> list float64;
  (** [get_top_and_bottom_indices(results, 'Score', n_features)], given the
      Score column and the threshold *)
  get_top_and_bottom_indices : list R -> option R -> list nat;
  (** [choice(a, size)] on a population that is not empty draws indices
      below [a] *)
  np_choice_range : forall a s g,
    (0 < a)%nat -> Forall (fun i => (i < a)%nat) (np_choice a s g).1
}.

(** The scoring function: a function of the target and of one feature, which
    may draw from the global random generator. *)
Definition scoring `{Externals} : Type :=
  list R -> list R -> rng_state -> R * rng_state.

(** What [print] writes. *)
Inductive message : Type :=
| UsingProcesses (n_jobs : Z)
| ComputingScores
| ComputingCI (confidence : R)
| SkippingSamplings          (* "Skipping because n_samplings < 2." *)
| SkippingSampleSize         (* "Skipping because 0.632 * n_samples < 3." *)
| WithBootstrapped (n_samplings : Z)
| ComputingPValueAndFDR
| SkippingPermutations       (* "Skipping because n_perm < 1." *)
| ByScoringAgainst (n_permutations : Z).

Record state `{Externals} : Type := mkState {
  heap : gmap loc ndarray;
  rng : rng_state;
  stdout : list message
}.
Arguments mkState {_} heap rng stdout.

Section Monad.
Context `{Externals}.

(** A computation: from the state to a value and the next state, or to an
    exception. *)
Definition M (A : Type) : Type := state -> res (A * state).

Definition ret {A} (a : A) : M A := fun st => Ok (a, st).

Definition bind {A B} (m : M A) (k : A -> M B) : M B :=
  fun st =>
    match m st with
    | Ok (a, st') => k a st'
    | Err e => Err e
    end.

Definition raise {A} (e : exn) : M A := fun _ => Err e.

Definition lift {A} (r : res A) : M A :=
  fun st => match r with Ok a => Ok (a, st) | Err e => Err e end.

End Monad.

Declare Scope M_scope.
Delimit Scope M_scope with M.
Notation "'let*' x := m 'in' k" := (bind m (fun x => k))
  (at level 10, x name, m at level 100, k at level 200,
   format "'[v' 'let*'  x  :=  m  'in' '/' k ']'") : M_scope.
Notation "m ;; k" := (bind m (fun _ => k))
  (at level 100, k at level 200, right associativity) : M_scope.

(** ** Array operations of numpy *)

(** [ceil(0.632 * n)], in exact arithmetic. *)
Definition sample_size (n : nat) : nat :=
  Z.to_nat ((632 * Z.of_nat n + 999) / 1000).

Definition Rsum (l : list R) : R := List.fold_right Rplus 0%R l.

Definition mean (l : list R) : R := (Rsum l / INR (List.length l))%R.

(** [f.std()]: the square root of the mean squared deviation from the mean
    (numpy's default, [ddof = 0]); [nan] on an empty array. *)
Definition np_std (f : list R) : float64 :=
  match f with
  | [] => nan
  | _ :: _ =>
      fin (sqrt (mean (List.map (fun x => ((x - mean f) * (x - mean f))%R) f)))
  end.

Fixpoint mapM_res {A B} (f : A -> res B) (l : list A) : res (list B) :=
  match l with
  | [] => Ok []
  | a :: l' =>
      (do b <- f a; do bs <- mapM_res f l'; Ok (b :: bs))%res
  end.

(** [a[indices]]: indexing with a list of indices; an index past the end
    raises. *)
Definition take_indices {A} (a : list A) (indices : list nat) : res (list A) :=
  mapM_res (fun i => match List.nth_error a i with
                     | Some x => Ok x
                     | None => Err IndexError
                     end) indices.

(** [features[:, indices]] *)
Definition take_columns (rows : list (list R)) (indices : list nat)
    : res (list (list R)) :=
  mapM_res (fun row => take_indices row indices) rows.

(** The k-by-n array whose column [i] is [cols[i]], as its list of rows:
    what [m[:, i] = cols[i]] for every [i] leaves in [m = empty((k, n))]. *)
Definition columns_to_rows (k : nat) (cols : list (list R))
    : list (list R) :=
  List.map (fun j => List.map (fun col => List.nth j col 0%R) cols)
           (List.seq 0 k).

(** [concatenate(arrays)] along the first axis; an empty list of arrays
    raises. *)
Definition concatenate {A} (arrays : list (list A)) : res (list A) :=
  match arrays with
  | [] => Err ValueError
  | _ :: _ => Ok (List.concat arrays)
  end.

(** [m.flatten()] of a two-dimensional array, row by row. *)
Definition flatten (m : list (list R)) : list R := List.concat m.

(** The section sizes of [array_split]: with [total = q * sections + r], the
    first [r] sections have [q + 1] rows and the others have [q]. *)
Definition section_sizes (total sections : nat) : list nat :=
  List.repeat (total / sections + 1)%nat (total mod sections) ++
  List.repeat (total / sections)%nat (sections - total mod sections).

Fixpoint split_by {A} (sizes : list nat) (l : list A) : list (list A) :=
  match sizes with
  | [] => []
  | n :: sizes' => List.firstn n l :: split_by sizes' (List.skipn n l)
  end.

(** [x[indices] = values] on a one-dimensional [x]. *)
Fixpoint assign_at {A} (indices : list nat) (values : list A) (x : list A)
    : list A :=
  match indices, values with
  | i :: indices', v :: values' => assign_at indices' values' (<[ i := v ]> x)
  | _, _ => x
  end.

Section Program.
Context `{Externals}.

Local Open Scope M_scope.

(** ** Primitive operations on the state *)

Definition set_rng (g : rng_state) (st : state) : state :=
  mkState (heap st) g (stdout st).

Definition set_heap (h : gmap loc ndarray) (st : state) : state :=
  mkState h (rng st) (stdout st).

Definition print (m : message) : M unit :=
  fun st => Ok (tt, mkState (heap st) (rng st) (stdout st ++ [m])).

(** [numpy.random.get_state()], [set_state(s)], [seed(s)] *)
Definition get_state : M rng_state := fun st => Ok (rng st, st).
Definition set_state (g : rng_state) : M unit :=
  fun st => Ok (tt, set_rng g st).
Definition seed (random_seed : Z) : M unit :=
  fun st => Ok (tt, set_rng (np_seed random_seed) st).

(** [choice(a, size)]; numpy raises on an empty population ("a must be
    greater than 0"). *)
Definition choice (a size : nat) : M (list nat) :=
  fun st =>
    match a with
    | O => Err ValueError
    | S _ =>
        let r := np_choice a size (rng st) in
        Ok (r.1, set_rng r.2 st)
    end.

(** A new array object. *)
Definition alloc (a : ndarray) : M loc :=
  fun st =>
    let l := fresh (dom (heap st)) in
    Ok (l, set_heap (<[ l := a ]> (heap st)) st).

(** Reading a one-dimensional, respectively two-dimensional, array. *)
Definition load1 (l : loc) : M (list R) :=
  fun st =>
    match heap st !! l with
    | Some (Arr1 v) => Ok (v, st)
    | _ => Err IllTyped
    end.

Definition load2 (l : loc) : M (list (list R)) :=
  fun st =>
    match heap st !! l with
    | Some (Arr2 rows) => Ok (rows, st)
    | _ => Err IllTyped
    end.

(** [array(x)]: a copy of [x] in a new object. *)
Definition array (x : loc) : M loc :=
  let* v := load1 x in
  alloc (Arr1 v).

(** [shuffle(x)]: shuffles the contents of the object [x] in place. *)
Definition shuffle (x : loc) : M unit :=
  fun st =>
    match heap st !! x with
    | Some (Arr1 v) =>
        let r := np_shuffle v (rng st) in
        Ok (tt, mkState (<[ x := Arr1 r.1 ]> (heap st)) r.2 (stdout st))
    | _ => Err IllTyped
    end.

Fixpoint mapM {A B} (f : A -> M B) (l : list A) : M (list B) :=
  match l with
  | [] => ret []
  | a :: l' =>
      let* b := f a in
      let* bs := mapM f l' in
      ret (b :: bs)
  end.

(** [for i in range(n): cols[i] = body()] *)
Fixpoint for_range {A} (n : nat) (body : M A) : M (list A) :=
  match n with
  | O => ret []
  | S n' =>
      let* x := body in
      let* xs := for_range n' body in
      ret (x :: xs)
  end.

(** The calls [func1d(row)] of [apply_along_axis(func1d, 1, rows)], row after
    row, each from the generator state the one before left. *)
Fixpoint map_rows (func1d : list R -> rng_state -> R * rng_state)
    (rows : list (list R)) (g : rng_state) : list R * rng_state :=
  match rows with
  | [] => ([], g)
  | row :: rows' =>
      let r := func1d row g in
      let rs := map_rows func1d rows' r.2 in
      (r.1 :: rs.1, rs.2)
  end.

(** [apply_along_axis(func1d, 1, rows)] for a [func1d] that returns a
    number; numpy raises when there is no row to apply it to. *)
Definition apply_along_axis_rows
    (func1d : list R -> rng_state -> R * rng_state)
    (rows : list (list R)) : M (list R) :=
  fun st =>
    match rows with
    | [] => Err ValueError
    | _ :: _ =>
        let r := map_rows func1d rows (rng st) in
        Ok (r.1, set_rng r.2 st)
    end.

(** [array_split(features, n_jobs)]: [n_jobs] arrays of consecutive rows. *)
Definition array_split (features : loc) (n_jobs : Z) : M (list loc) :=
  let* rows := load2 features in
  if (n_jobs <=? 0)%Z then raise ValueError
  else
    mapM (fun chunk => alloc (Arr2 chunk))
         (split_by (section_sizes (List.length rows) (Z.to_nat n_jobs)) rows).

(** [features[indices]]: the rows at [indices], in a new array. *)
Definition take_rows (features : loc) (indices : list nat) : M loc :=
  let* rows := load2 features in
  let* selected := lift (take_indices rows indices) in
  alloc (Arr2 selected).

(** ** score (lines 319-329) *)

Definition score (target features : loc) (function : scoring) : M (list R) :=
  let* t := load1 target in
  let* rows := load2 features in
  apply_along_axis_rows (fun feature => function t feature) rows.

(** ** permute_and_score (lines 270-306) *)

(** The body of the loop (lines 295-304). *)
Definition permutation_round (target features : loc) (function : scoring)
    : M (list R) :=
  shuffle target ;;
  let* random_state := get_state in
  let* column := score target features function in
  set_state random_state ;;
  ret column.

Definition permute_and_score (target features : loc) (function : scoring)
    (n_permutations : Z) (random_seed : Z) : M (list (list R)) :=
  let* rows := load2 features in
  if (n_permutations <? 0)%Z then raise ValueError   (* empty((k, n)) *)
  else
    let* target := array target in
    seed random_seed ;;
    let* columns :=
      for_range (Z.to_nat n_permutations)
                (permutation_round target features function) in
    ret (columns_to_rows (List.length rows) columns).

(** ** compute_confidence_interval (lines 215-257) *)

(** The body of the loop (lines 238-250). *)
Definition bootstrap_round (target features : loc) (function : scoring)
    : M (list R) :=
  let* t := load1 target in
  let* rows := load2 features in
  let* random_is := choice (List.length t) (sample_size (List.length t)) in
  let* sampled_target := lift (take_indices t random_is) in
  let* sampled_features := lift (take_columns rows random_is) in
  let* random_state := get_state in
  let* column :=
    apply_along_axis_rows (fun feature => function sampled_target feature)
                          sampled_features in
  set_state random_state ;;
  ret column.

(** [norm.ppf(q=confidence) * f.std() / sqrt(n_samplings)] (line 255), for a
    confidence strictly between 0 and 1, where [norm.ppf] is a number (at 0
    and 1 it is infinite and elsewhere not-a-number, which [norm_ppf] does
    not express). *)
Definition half_width (confidence : R) (n_samplings : Z) (f : list R)
    : float64 :=
  match np_std f with
  | nan => nan
  | fin s => fin (norm_ppf confidence * s / sqrt (IZR n_samplings))
  end.

Definition compute_confidence_interval (target features : loc)
    (function : scoring) (n_samplings : Z) (confidence : R)
    (random_seed : Z) : M (list float64) :=
  let* rows := load2 features in
  if (n_samplings <? 0)%Z then raise ValueError      (* empty((k, n)) *)
  else
    seed random_seed ;;
    let* columns :=
      for_range (Z.to_nat n_samplings)
                (bootstrap_round target features function) in
    let feature_x_sampling := columns_to_rows (List.length rows) columns in
    match feature_x_sampling with
    | [] => raise ValueError                         (* apply_along_axis *)
    | _ :: _ =>
        ret (List.map (half_width confidence n_samplings) feature_x_sampling)
    end.

(** ** compute_p_values_and_fdrs (lines 171-190) *)

Definition compute_p_values_and_fdrs (values random_values : list R)
    : res (list float64 * list float64) :=
  (do f <- apply_along_axis_1d py_compute_p_value 0 values [] [];
   do p_values_f <- as_f64_array f;
   do r <- apply_along_axis_1d py_compute_p_value 0 values []
             [("kwargs", PyDict [("forward", false)])];
   do p_values_r <- as_f64_array r;
   let p_values := where_lt p_values_f p_values_r in
   let fdrs_f := fdr_bh p_values_f in
   let fdrs_r := fdr_bh p_values_r in
   let fdrs := where_lt fdrs_f fdrs_r in
   Ok (p_values, fdrs))%res.

End Program.

Section Pipeline.
Context `{Externals}.

Local Open Scope M_scope.

(** ** multiprocess *)

(** Modelled from the spec: [multiprocess], of the repository's helper
    package, is not part of [match_.py].  Section 4.2 and section 5 of the
    specification: the function is invoked independently on each argument
    tuple, in isolated workers with no shared mutable memory (each worker
    works on its own copy of the state, and what it does to that copy is
    lost); the results come back in the order of the arguments; the failure
    of a worker is fatal for the whole computation. *)
Definition multiprocess {X Y} (function : X -> M Y) (args : list X)
    (n_jobs : Z) : M (list Y) :=
  fun st =>
    match mapM_res (fun a => (do r <- function a st; Ok r.1)%res) args with
    | Ok results => Ok (results, st)
    | Err e => Err e
    end.

(** ** multiprocess_score, multiprocess_permute_and_score *)

Definition multiprocess_score (args : loc * loc * scoring) : M (list R) :=
  let '(target, features, function) := args in
  score target features function.

Definition multiprocess_permute_and_score
    (args : loc * loc * scoring * Z * Z) : M (list (list R)) :=
  let '(target, features, function, n_permutations, random_seed) := args in
  permute_and_score target features function n_permutations random_seed.

(** ** match (lines 84-168) *)

(** The table [results]: one entry per feature in each column; [nan] is a
    missing entry. *)
Record result_table : Type := {
  Score : list R;
  CI : list float64;
  p_value : list float64;
  FDR : list float64
}.

(** Lines 123-131: the split of the features and the Score column. *)
Definition match_scores (target features : loc) (function : scoring)
    (n_jobs : Z) : M (list loc * list R) :=
  print (UsingProcesses n_jobs) ;;
  let* split_features := array_split features n_jobs in
  print ComputingScores ;;
  let* chunks :=
    multiprocess multiprocess_score
      (List.map (fun fs => (target, fs, function)) split_features) n_jobs in
  let* scores := lift (concatenate chunks) in
  ret (split_features, scores).

(** Lines 133-150: the CI column. *)
Definition match_confidence_intervals (target features : loc)
    (function : scoring) (scores : list R) (n_features : option R)
    (n_samplings : Z) (confidence : R) (random_seed : Z)
    : M (list float64) :=
  print (ComputingCI confidence) ;;
  let* t := load1 target in
  (if (n_samplings <? 2)%Z then print SkippingSamplings
   else if (sample_size (List.length t) <? 3)%nat then
     print SkippingSampleSize
   else print (WithBootstrapped n_samplings)) ;;
  let indices := get_top_and_bottom_indices scores n_features in
  let* selected := take_rows features indices in
  let* intervals :=
    compute_confidence_interval target selected function n_samplings
                                confidence random_seed in
  ret (assign_at indices intervals (List.repeat nan (List.length scores))).

(** Lines 152-163: the permutation scores of all the features. *)
Definition match_permutation_scores (target : loc)
    (split_features : list loc) (function : scoring) (n_jobs : Z)
    (n_permutations : Z) (random_seed : Z) : M (list (list R)) :=
  print ComputingPValueAndFDR ;;
  (if (n_permutations <? 1)%Z then print SkippingPermutations
   else print (ByScoringAgainst n_permutations)) ;;
  let* chunks :=
    multiprocess multiprocess_permute_and_score
      (List.map (fun f => (target, f, function, n_permutations, random_seed))
                split_features) n_jobs in
  lift (concatenate chunks).

(** [match]; the parameters [dropna], [target_ascending] and
    [result_in_ascending_order] are not used by the code. *)
Definition match_ (target features : loc) (function : scoring) (n_jobs : Z)
    (n_features : option R) (n_samplings : Z) (confidence : R)
    (n_permutations : Z) (random_seed : Z) : M result_table :=
  let* split_scores := match_scores target features function n_jobs in
  let split_features := split_scores.1 in
  let scores := split_scores.2 in
  let* intervals :=
    match_confidence_intervals target features function scores n_features
                               n_samplings confidence random_seed in
  let* permutation_scores :=
    match_permutation_scores target split_features function n_jobs
                             n_permutations random_seed in
  let* p_values_fdrs :=
    lift (compute_p_values_and_fdrs scores (flatten permutation_scores)) in
  ret {| Score := scores; CI := intervals;
         p_value := p_values_fdrs.1; FDR := p_values_fdrs.2 |}.

End Pipeline.

(** * Definitions for the statements *)

(** [cardinality P l n]: exactly [n] entries of [l] satisfy [P]. *)
Inductive cardinality {A} (P : A -> Prop) : list A -> nat -> Prop :=
| cardinality_nil : cardinality P [] 0
| cardinality_in x l n :
    P x -> cardinality P l n -> cardinality P (x :: l) (S n)
| cardinality_out x l n :
    ~ P x -> cardinality P l n -> cardinality P (x :: l) n.

(** [count / size], and [1 / size] when the count is zero. *)
Definition floored_fraction (count size : nat) : R :=
  match count with
  | O => (1 / INR size)%R
  | S _ => (INR count / INR size)%R
  end.

Section Specification.
Context `{Externals}.

(** A scoring function that is a function of its two arguments alone. *)
Definition pure_scoring (function : scoring) (f : list R -> list R -> R)
    : Prop :=
  forall t x g, function t x g = (f t x, g).

(** [a[indices]] when every index is in range. *)
Definition gather {A} (d : A) (a : list A) (indices : list nat) : list A :=
  List.map (fun i => List.nth i a d) indices.

(** The draws of the bootstrap loop from the generator state [g]: the
    indices of each round and the generator state the draw leaves.  Each
    draw starts from the state the draw before it left. *)
Fixpoint bootstrap_draws (size n : nat) (g : rng_state)
    : list (list nat * rng_state) :=
  match n with
  | O => []
  | S n' =>
      let d := np_choice size (sample_size size) g in
      d :: bootstrap_draws size n' d.2
  end.

(** The shuffles of the permutation loop from the contents [v] and the
    generator state [g]: the shuffled target of each round and the generator
    state the shuffle leaves.  Each shuffle is applied to the result of the
    shuffle before it. *)
Fixpoint permutation_draws (v : list R) (n : nat) (g : rng_state)
    : list (list R * rng_state) :=
  match n with
  | O => []
  | S n' =>
      let d := np_shuffle v g in
      d :: permutation_draws d.1 n' d.2
  end.

(** The shuffles of a loop that would go back to the original contents [v]
    before each round. *)
Fixpoint reset_draws (v : list R) (n : nat) (g : rng_state)
    : list (list R * rng_state) :=
  match n with
  | O => []
  | S n' =>
      let d := np_shuffle v g in
      d :: reset_draws v n' d.2
  end.

Definition last_rng {A} (draws : list (A * rng_state)) (g : rng_state)
    : rng_state :=
  List.last (List.map snd draws) g.

Definition last_value {A} (draws : list (A * rng_state)) (v : A) : A :=
  List.last (List.map fst draws) v.

(** The scores of the features [rows] in the round of the draw [d]. *)
Definition bootstrap_column (function : scoring) (t : list R)
    (rows : list (list R)) (d : list nat * rng_state) : list R :=
  (map_rows (fun feature => function (gather 0%R t d.1) feature)
            (List.map (fun row => gather 0%R row d.1) rows) d.2).1.

Definition permutation_column (function : scoring) (rows : list (list R))
    (d : list R * rng_state) : list R :=
  (map_rows (fun feature => function d.1 feature) rows d.2).1.

(** The sections that [array_split] makes of the rows. *)
Definition sections_of (rows : list (list R)) (n_jobs : Z)
    : list (list (list R)) :=
  split_by (section_sizes (List.length rows) (Z.to_nat n_jobs)) rows.

(** A computation that, when it returns, leaves every array of the store
    as it was (it may have added new ones). *)
Definition extending {A} (m : M A) : Prop :=
  forall st a st', m st = Ok (a, st') -> heap st ⊆ heap st'.

(** The two-sided normal quantile for the confidence [c]: the [z] with
    P(|Z| <= z) = c for a standard normal Z, which is the value of the
    inverse distribution function at [(1 + c) / 2]. *)
Definition two_sided_quantile (c : R) : R := norm_ppf ((1 + c) / 2).

End Specification.

(** ** Inputs for the examples *)

Module Toy.

(** A generator that is a counter: [choice] draws the index [g mod a] every
    time, [shuffle] moves the first entry to the end, and each draw advances
    the counter.  The selection of the features for the CI takes all of
    them. *)
Definition counter_choice (a size : nat) (g : nat) : list nat * nat :=
  (List.repeat (g mod a)%nat size, S g).

Definition rotate (v : list R) (g : nat) : list R * nat :=
  (match v with [] => [] | x :: v' => v' ++ [x] end, S g).

(** [norm.ppf] at the two arguments of the examples, as scipy gives them:
    norm.ppf(0.95) = 1.6448536269514722 and
    norm.ppf(0.975) = 1.959963984540054. *)
Definition norm_ppf_table (q : R) : R :=
  if Rle_dec q (95 / 100) then (16448536269514722 / 10000000000000000)%R
  else (1959963984540054 / 1000000000000000)%R.

Definition counter_externals : Externals.
Proof.
  refine {|
    rng_state := nat;
    np_seed := Z.to_nat;
    np_choice := counter_choice;
    np_shuffle := rotate;
    norm_ppf := norm_ppf_table;
    fdr_bh := fun p => p;
    get_top_and_bottom_indices :=
      fun scores _ => List.seq 0 (List.length scores)
  |}.
  intros a s g Ha. unfold counter_choice. cbn [fst].
  apply List.Forall_forall. intros i Hi.
  apply List.repeat_spec in Hi. subst.
  apply Nat.mod_upper_bound. lia.
Defined.

#[local] Existing Instance counter_externals.

(** A scoring function of its arguments alone: the first entry of the
    target it is given. *)
Definition first_of_target : scoring :=
  fun t x g => (List.nth 0 t 0%R, g).

(** A scoring function that draws from the generator. *)
Definition noisy : scoring :=
  fun t x g => ((List.nth 0 t 0 + INR g)%R, S g).

Definition target : loc := 1%positive.
Definition features : loc := 2%positive.

(** A target of four samples and one feature. *)
Definition one_feature : state :=
  mkState (<[ target := Arr1 [0; 2; 5; 7]%R ]>
           (<[ features := Arr2 [[1; 1; 1; 1]%R] ]> ∅)) O [].

(** A target of four samples and two features. *)
Definition two_features : state :=
  mkState (<[ target := Arr1 [0; 2; 5; 7]%R ]>
           (<[ features := Arr2 [[1; 1; 1; 1]; [7; 5; 2; 0]]%R ]> ∅)) O [].

(** A target of four samples and a feature matrix without rows. *)
Definition no_features : state :=
  mkState (<[ target := Arr1 [0; 2; 5; 7]%R ]>
           (<[ features := Arr2 [] ]> ∅)) O [].


(** The state [one_feature] after other draws from the generator and other
    output. *)
Definition one_feature_later : state :=
  mkState (heap one_feature) 7%nat [ComputingScores].


(** The externals of the examples with another selection of the features
    for the CI: the first feature only. *)
Definition first_only : Externals :=
  {| rng_state := @rng_state counter_externals;
     np_seed := @np_seed counter_externals;
     np_choice := @np_choice counter_externals;
     np_shuffle := @np_shuffle counter_externals;
     norm_ppf := @norm_ppf counter_externals;
     fdr_bh := @fdr_bh counter_externals;
     get_top_and_bottom_indices := fun _ _ => [O];
     np_choice_range := @np_choice_range counter_externals |}.

(** The state [two_features] for these externals. *)
Definition two_features_first_only : @state first_only :=
  @mkState first_only (heap two_features) O [].

End Toy.

(** * Properties *)

(** ** The empirical p-value *)

Lemma Rleb_true x y : Rleb x y = true <-> (x <= y)%R.
Proof. unfold Rleb. destruct (Rle_dec x y); split; intros; try easy. Qed.

Lemma Rltb_true x y : Rltb x y = true <-> (x < y)%R.
Proof. unfold Rltb. destruct (Rlt_dec x y); split; intros; try easy. Qed.

Lemma cardinality_filter (P : R -> Prop) (f : R -> bool) (l : list R) :
  (forall x, f x = true <-> P x) ->
  cardinality P l (List.length (List.filter f l)).
Proof.
  intros Hf. induction l as [|x l IH]; simpl.
  - constructor.
  - destruct (f x) eqn:E; simpl.
    + apply cardinality_in; [apply Hf, E | exact IH].
    + apply cardinality_out; [|exact IH].
      intros HP. apply Hf in HP. congruence.
Qed.

Lemma filter_length_le {A} (f : A -> bool) (l : list A) :
  (List.length (List.filter f l) <= List.length l)%nat.
Proof.
  induction l as [|x l IH]; simpl; [lia|].
  destruct (f x); simpl; lia.
Qed.

Lemma truthy_fin r : truthy (fin r) = false <-> r = 0%R.
Proof.
  simpl. destruct (Req_dec_T r 0); split; intros; congruence.
Qed.

Lemma ratio_zero_iff (c n : nat) :
  (INR c / INR (S n) = 0)%R <-> c = O.
Proof.
  assert (Hn : (0 < INR (S n))%R) by (apply lt_0_INR; lia).
  split.
  - intros E. destruct c as [|c]; [reflexivity|exfalso].
    assert (Hc : (0 < INR (S c))%R) by (apply lt_0_INR; lia).
    assert (Hp : (0 < INR (S c) / INR (S n))%R)
      by (apply Rdiv_lt_0_compat; assumption).
    lra.
  - intros ->. simpl. unfold Rdiv. apply Rmult_0_l.
Qed.

(** The value of the floored fraction that [compute_p_value] computes from a
    count, on a pool that is not empty. *)
Lemma floored_of_count (c n : nat) :
  (if negb (truthy (np_ratio c (S n))) then fin (1 / INR (S n))
   else np_ratio c (S n)) = fin (floored_fraction c (S n)).
Proof.
  unfold np_ratio. destruct c as [|c].
  - replace (truthy (fin (INR 0 / INR (S n)))) with false; [reflexivity|].
    symmetry. apply truthy_fin. apply ratio_zero_iff. reflexivity.
  - destruct (truthy (fin (INR (S c) / INR (S n)))) eqn:E; [reflexivity|].
    apply truthy_fin in E. apply ratio_zero_iff in E. discriminate.
Qed.

Lemma compute_p_value_greater value random_values :
  random_values <> [] ->
  compute_p_value value random_values true =
  fin (floored_fraction (count_le_right value random_values)
                        (List.length random_values)).
Proof.
  intros Hne. destruct random_values as [|x l]; [congruence|].
  unfold compute_p_value. cbv zeta.
  change (List.length (x :: l)) with (S (List.length l)).
  apply floored_of_count.
Qed.

Lemma compute_p_value_not_greater value random_values :
  random_values <> [] ->
  compute_p_value value random_values false =
  fin (floored_fraction (count_le_left random_values value)
                        (List.length random_values)).
Proof.
  intros Hne. destruct random_values as [|x l]; [congruence|].
  unfold compute_p_value. cbv zeta.
  change (List.length (x :: l)) with (S (List.length l)).
  apply floored_of_count.
Qed.

Lemma floored_fraction_bounds (c n : nat) :
  (c <= S n)%nat ->
  (1 / INR (S n) <= floored_fraction c (S n) <= 1)%R /\
  floored_fraction c (S n) <> 0%R.
Proof.
  intros Hc.
  assert (Hn : (0 < INR (S n))%R) by (apply lt_0_INR; lia).
  assert (H1 : (1 <= INR (S n))%R).
  { change 1%R with (INR 1). apply le_INR. lia. }
  assert (Hinv : (0 < / INR (S n))%R) by (apply Rinv_0_lt_compat, Hn).
  destruct c as [|c]; cbn [floored_fraction].
  - unfold Rdiv. rewrite Rmult_1_l. split; [split; [lra|]|lra].
    rewrite <- Rinv_1. apply Rinv_le_contravar; lra.
  - assert (Hc1 : (1 <= INR (S c))%R).
    { change 1%R with (INR 1). apply le_INR. lia. }
    assert (Hcn : (INR (S c) <= INR (S n))%R) by (apply le_INR, Hc).
    unfold Rdiv. split; [split|].
    + apply Rmult_le_compat_r; lra.
    + apply Rmult_le_reg_r with (r := INR (S n)); [exact Hn|].
      rewrite Rmult_assoc, Rinv_l by lra. lra.
    + apply Rgt_not_eq. apply Rmult_lt_0_compat; lra.
Qed.

Lemma where_lt_min (a b : list R) :
  where_lt (List.map fin a) (List.map fin b) =
  List.map (fun ab => fin (Rmin ab.1 ab.2)) (List.combine a b).
Proof.
  revert b. induction a as [|x a IH]; intros [|y b]; try reflexivity.
  unfold where_lt in *. simpl. f_equal; [|apply IH].
  unfold Rmin. destruct (Rltb x y) eqn:E.
  - apply Rltb_true in E. destruct (Rle_dec x y); [reflexivity|lra].
  - destruct (Rle_dec x y) as [Hle|]; [|reflexivity].
    destruct (Rle_lt_or_eq_dec x y Hle) as [Hlt|Heq].
    + apply Rltb_true in Hlt. congruence.
    + congruence.
Qed.

(** The one-sided p-values.  On a null pool that is not empty,
    [compute_p_value] returns, for each observed score [v], the fraction of
    the pool that is at least [v] when [greater] is true, and the fraction
    that is at most [v] when [greater] is false, with [1 / |pool|] in place
    of a fraction whose count is zero; and the function [where_lt] on two
    vectors of these one-sided p-values is their elementwise minimum.  (Of
    [where_lt] alone: [compute_p_values_and_fdrs] does not get to its
    line 183.) *)
Theorem compute_p_value_empirical (values pool : list R) :
  pool <> [] ->
  exists forward reverse : list R,
    Forall2 (fun v p => exists c,
               cardinality (fun x => (v <= x)%R) pool c /\
               p = floored_fraction c (List.length pool)) values forward /\
    Forall2 (fun v p => exists c,
               cardinality (fun x => (x <= v)%R) pool c /\
               p = floored_fraction c (List.length pool)) values reverse /\
    List.map (fun v => compute_p_value v pool true) values =
      List.map fin forward /\
    List.map (fun v => compute_p_value v pool false) values =
      List.map fin reverse /\
    where_lt (List.map (fun v => compute_p_value v pool true) values)
             (List.map (fun v => compute_p_value v pool false) values) =
      List.map (fun fr => fin (Rmin fr.1 fr.2))
               (List.combine forward reverse).
Proof.
  intros Hne.
  exists (List.map (fun v => floored_fraction (count_le_right v pool)
                                              (List.length pool)) values),
         (List.map (fun v => floored_fraction (count_le_left pool v)
                                              (List.length pool)) values).
  assert (Hf : List.map (fun v => compute_p_value v pool true) values =
               List.map fin
                 (List.map (fun v => floored_fraction (count_le_right v pool)
                                       (List.length pool)) values)).
  { rewrite List.map_map. apply List.map_ext. intros v.
    apply compute_p_value_greater, Hne. }
  assert (Hr : List.map (fun v => compute_p_value v pool false) values =
               List.map fin
                 (List.map (fun v => floored_fraction (count_le_left pool v)
                                       (List.length pool)) values)).
  { rewrite List.map_map. apply List.map_ext. intros v.
    apply compute_p_value_not_greater, Hne. }
  split; [|split; [|split; [exact Hf|split; [exact Hr|]]]].
  - clear Hf Hr. induction values as [|v values IH]; simpl.
    + constructor.
    + constructor; [|exact IH].
      exists (count_le_right v pool). split; [|reflexivity].
      apply cardinality_filter. intros x. apply Rleb_true.
  - clear Hf Hr. induction values as [|v values IH]; simpl.
    + constructor.
    + constructor; [|exact IH].
      exists (count_le_left pool v). split; [|reflexivity].
      apply cardinality_filter. intros x. apply Rleb_true.
  - rewrite Hf, Hr. apply where_lt_min.
Qed.

Lemma compute_p_value_empirical_witness :
  exists forward reverse : list R,
    Forall2 (fun v p => exists c,
               cardinality (fun x => (v <= x)%R) [1; 2; 3; 4]%R c /\
               p = floored_fraction c 4) [2; 5]%R forward /\
    Forall2 (fun v p => exists c,
               cardinality (fun x => (x <= v)%R) [1; 2; 3; 4]%R c /\
               p = floored_fraction c 4) [2; 5]%R reverse /\
    List.map (fun v => compute_p_value v [1; 2; 3; 4]%R true) [2; 5]%R =
      List.map fin forward /\
    List.map (fun v => compute_p_value v [1; 2; 3; 4]%R false) [2; 5]%R =
      List.map fin reverse /\
    where_lt
      (List.map (fun v => compute_p_value v [1; 2; 3; 4]%R true) [2; 5]%R)
      (List.map (fun v => compute_p_value v [1; 2; 3; 4]%R false) [2; 5]%R) =
      List.map (fun fr => fin (Rmin fr.1 fr.2))
               (List.combine forward reverse).
Proof.
  apply (compute_p_value_empirical [2; 5]%R [1; 2; 3; 4]%R).
  discriminate.
Defined.

(** C7. On a null pool that is not empty, the p-value that
    [compute_p_value] returns is a number between [1 / pool_size] and 1, and
    it is not 0. *)
Theorem compute_p_value_bounds (value : R) (random_values : list R)
    (greater : bool) :
  random_values <> [] ->
  exists p : R,
    compute_p_value value random_values greater = fin p /\
    (1 / INR (List.length random_values) <= p <= 1)%R /\
    p <> 0%R.
Proof.
  intros Hne.
  destruct random_values as [|x l] eqn:E; [congruence|]. rewrite <- E in *.
  assert (Hlen : List.length random_values = S (List.length l))
    by (rewrite E; reflexivity).
  destruct greater.
  - exists (floored_fraction (count_le_right value random_values)
                             (List.length random_values)).
    split; [apply compute_p_value_greater, Hne|].
    rewrite Hlen. apply floored_fraction_bounds.
    rewrite <- Hlen. apply filter_length_le.
  - exists (floored_fraction (count_le_left random_values value)
                             (List.length random_values)).
    split; [apply compute_p_value_not_greater, Hne|].
    rewrite Hlen. apply floored_fraction_bounds.
    rewrite <- Hlen. apply filter_length_le.
Qed.

Lemma compute_p_value_bounds_witness :
  exists p : R,
    compute_p_value 5 [1; 2; 3; 4]%R true = fin p /\
    (1 / INR 4 <= p <= 1)%R /\ p <> 0%R.
Proof.
  apply (compute_p_value_bounds 5 [1; 2; 3; 4]%R true).
  discriminate.
Defined.

(** C4. [compute_p_values_and_fdrs] raises a TypeError on every input: its
    first [apply_along_axis] call gives [compute_p_value] the array alone,
    without the required [random_values]; the second call does the same and
    passes the keyword [kwargs], which [compute_p_value] does not have. *)
Theorem compute_p_values_and_fdrs_raises `{Externals}
    (values random_values : list R) :
  compute_p_values_and_fdrs values random_values = Err TypeError /\
  apply_along_axis_1d py_compute_p_value 0 values [] [] = Err TypeError /\
  apply_along_axis_1d py_compute_p_value 0 values []
    [("kwargs", PyDict [("forward", false)])] = Err TypeError /\
  bind_arguments (parameters py_compute_p_value) [PyArray values] []
    = Err TypeError /\
  index_of "kwargs" (parameters py_compute_p_value) = None /\
  index_of "random_values" (parameters py_compute_p_value) = Some 1%nat.
Proof.
  repeat split; reflexivity.
Qed.

(** ** Running computations *)

Section Loops.
Context `{Externals}.

Local Open Scope M_scope.

Lemma bind_ok {A B} (m : M A) (k : A -> M B) st a st' :
  m st = Ok (a, st') -> bind m k st = k a st'.
Proof. unfold bind. intros ->. reflexivity. Qed.

Lemma bind_err {A B} (m : M A) (k : A -> M B) st e :
  m st = Err e -> bind m k st = Err e.
Proof. unfold bind. intros ->. reflexivity. Qed.

Lemma bind_inv {A B} (m : M A) (k : A -> M B) st b st2 :
  bind m k st = Ok (b, st2) ->
  exists a st1, m st = Ok (a, st1) /\ k a st1 = Ok (b, st2).
Proof.
  unfold bind. destruct (m st) as [[a st1]|e]; [|discriminate].
  intros E. exists a, st1. split; [reflexivity|exact E].
Qed.

Lemma set_rng_rng (st : state) : set_rng (rng st) st = st.
Proof. destruct st. reflexivity. Qed.

Lemma take_indices_ok {A} (d : A) (a : list A) (indices : list nat) :
  Forall (fun i => (i < List.length a)%nat) indices ->
  take_indices a indices = Ok (List.map (fun i => List.nth i a d) indices).
Proof.
  unfold take_indices. induction 1 as [|i indices Hi _ IH]; simpl.
  - reflexivity.
  - destruct (List.nth_error a i) as [x|] eqn:E.
    + rewrite IH. simpl. f_equal. f_equal.
      symmetry. apply List.nth_error_nth. exact E.
    + apply List.nth_error_None in E. lia.
Qed.

Lemma take_columns_ok (rows : list (list R)) (indices : list nat) (m : nat) :
  Forall (fun row => List.length row = m) rows ->
  Forall (fun i => (i < m)%nat) indices ->
  take_columns rows indices =
  Ok (List.map (fun row => List.map (fun i => List.nth i row 0%R) indices)
               rows).
Proof.
  intros Hrows Hidx. unfold take_columns.
  induction Hrows as [|row rows Hrow _ IH]; simpl.
  - reflexivity.
  - rewrite (take_indices_ok 0%R) by (rewrite Hrow; exact Hidx).
    simpl. rewrite IH. reflexivity.
Qed.

Lemma map_rows_pure function f t rows g :
  pure_scoring function f ->
  map_rows (fun feature => function t feature) rows g =
  (List.map (f t) rows, g).
Proof.
  intros Hp. revert g. induction rows as [|row rows IH]; intros g; simpl.
  - reflexivity.
  - rewrite Hp. simpl. rewrite IH. reflexivity.
Qed.

End Loops.

(** ** The rounds of the two loops *)

Section Rounds.
Context `{Externals}.

Local Open Scope M_scope.

Lemma last_cons_default {A} (x : A) (l : list A) (d : A) :
  List.last (x :: l) d = List.last l x.
Proof.
  revert x d. induction l as [|y l IH]; intros x d; [reflexivity|].
  change (List.last (x :: y :: l) d) with (List.last (y :: l) d).
  rewrite (IH y d). symmetry. apply IH.
Qed.

Lemma bootstrap_round_spec target features function st t rows :
  heap st !! target = Some (Arr1 t) ->
  heap st !! features = Some (Arr2 rows) ->
  t <> [] -> rows <> [] ->
  Forall (fun row => List.length row = List.length t) rows ->
  let d := np_choice (List.length t) (sample_size (List.length t)) (rng st) in
  bootstrap_round target features function st =
  Ok (bootstrap_column function t rows d, set_rng d.2 st).
Proof.
  intros Ht Hf Htne Hrne Hshape d.
  unfold bootstrap_round.
  rewrite (bind_ok _ _ st t st) by (unfold load1; rewrite Ht; reflexivity).
  rewrite (bind_ok _ _ st rows st) by (unfold load2; rewrite Hf; reflexivity).
  rewrite (bind_ok _ _ st d.1 (set_rng d.2 st)).
  2:{ unfold choice. destruct (List.length t) eqn:E; [|reflexivity].
      destruct t; [congruence|discriminate]. }
  assert (Hpos : (0 < List.length t)%nat).
  { destruct t; [congruence|cbn; lia]. }
  rewrite (bind_ok _ _ _ (gather 0%R t d.1) (set_rng d.2 st)).
  2:{ unfold lift. rewrite (take_indices_ok 0%R); [reflexivity|].
      apply np_choice_range, Hpos. }
  rewrite (bind_ok _ _ _ (List.map (fun row => gather 0%R row d.1) rows)
                   (set_rng d.2 st)).
  2:{ unfold lift.
      rewrite (take_columns_ok rows d.1 (List.length t));
        [reflexivity|exact Hshape|apply np_choice_range, Hpos]. }
  rewrite (bind_ok _ _ _ d.2 (set_rng d.2 st)) by reflexivity.
  unfold bind, apply_along_axis_rows, set_state, ret, bootstrap_column.
  destruct rows as [|row rows]; [congruence|]. reflexivity.
Qed.

Lemma bootstrap_loop_spec target features function t rows n st :
  heap st !! target = Some (Arr1 t) ->
  heap st !! features = Some (Arr2 rows) ->
  t <> [] -> rows <> [] ->
  Forall (fun row => List.length row = List.length t) rows ->
  let draws := bootstrap_draws (List.length t) n (rng st) in
  for_range n (bootstrap_round target features function) st =
  Ok (List.map (bootstrap_column function t rows) draws,
      set_rng (last_rng draws (rng st)) st).
Proof.
  intros Ht Hf Htne Hrne Hshape. revert st Ht Hf.
  induction n as [|n IH]; intros st Ht Hf.
  - simpl. unfold ret, last_rng. simpl. rewrite set_rng_rng. reflexivity.
  - cbn [for_range bootstrap_draws].
    rewrite (bind_ok _ _ _ _ _
               (bootstrap_round_spec target features function st t rows
                                     Ht Hf Htne Hrne Hshape)).
    set (d := np_choice (List.length t) (sample_size (List.length t)) (rng st)).
    rewrite (bind_ok _ _ _ _ _ (IH (set_rng d.2 st) Ht Hf)).
    unfold ret. cbn [set_rng rng heap stdout List.map].
    unfold last_rng. cbn [List.map]. rewrite last_cons_default.
    reflexivity.
Qed.

Lemma permutation_round_spec target features function st v rows :
  heap st !! target = Some (Arr1 v) ->
  heap st !! features = Some (Arr2 rows) ->
  rows <> [] ->
  let d := np_shuffle v (rng st) in
  permutation_round target features function st =
  Ok (permutation_column function rows d,
      mkState (<[ target := Arr1 d.1 ]> (heap st)) d.2 (stdout st)).
Proof.
  intros Ht Hf Hrne d.
  assert (Hne : target <> features) by congruence.
  set (st1 := mkState (<[ target := Arr1 d.1 ]> (heap st)) d.2 (stdout st)).
  unfold permutation_round.
  rewrite (bind_ok _ _ st tt st1)
    by (unfold shuffle; rewrite Ht; reflexivity).
  rewrite (bind_ok _ _ st1 d.2 st1) by reflexivity.
  assert (Hscore : score target features function st1 =
                   Ok (permutation_column function rows d,
                       set_rng (map_rows (fun feature => function d.1 feature)
                                         rows d.2).2 st1)).
  { unfold score.
    rewrite (bind_ok _ _ st1 d.1 st1).
    2:{ unfold load1, st1. cbn [heap]. rewrite lookup_insert_eq.
        reflexivity. }
    rewrite (bind_ok _ _ st1 rows st1).
    2:{ unfold load2, st1. cbn [heap].
        rewrite lookup_insert_ne by exact Hne.
        rewrite Hf. reflexivity. }
    unfold apply_along_axis_rows.
    destruct rows as [|row rows]; [congruence|]. reflexivity. }
  rewrite (bind_ok _ _ _ _ _ Hscore).
  unfold bind, set_state, ret. reflexivity.
Qed.

Lemma permutation_loop_spec target features function rows n st v :
  heap st !! target = Some (Arr1 v) ->
  heap st !! features = Some (Arr2 rows) ->
  rows <> [] ->
  let draws := permutation_draws v n (rng st) in
  for_range n (permutation_round target features function) st =
  Ok (List.map (permutation_column function rows) draws,
      mkState (<[ target := Arr1 (last_value draws v) ]> (heap st))
              (last_rng draws (rng st)) (stdout st)).
Proof.
  intros Ht Hf Hrne. revert st v Ht Hf.
  induction n as [|n IH]; intros st v Ht Hf.
  - simpl. unfold ret, last_rng, last_value. simpl.
    rewrite insert_id by exact Ht. destruct st. reflexivity.
  - assert (Hne : target <> features) by congruence.
    cbn [for_range permutation_draws].
    rewrite (bind_ok _ _ _ _ _
               (permutation_round_spec target features function st v rows
                                       Ht Hf Hrne)).
    set (d := np_shuffle v (rng st)).
    set (st1 := mkState (<[ target := Arr1 d.1 ]> (heap st)) d.2 (stdout st)).
    assert (Ht1 : heap st1 !! target = Some (Arr1 d.1))
      by (unfold st1; cbn [heap]; apply lookup_insert_eq).
    assert (Hf1 : heap st1 !! features = Some (Arr2 rows))
      by (unfold st1; cbn [heap]; rewrite lookup_insert_ne by exact Hne;
          exact Hf).
    rewrite (bind_ok _ _ _ _ _ (IH st1 d.1 Ht1 Hf1)).
    unfold ret, st1. cbn [heap rng stdout List.map].
    unfold last_rng, last_value. cbn [List.map].
    rewrite !last_cons_default, insert_insert_eq. reflexivity.
Qed.

(** [permute_and_score] on a target, a feature matrix with a row at least,
    and a number of permutations that is not negative. *)
Lemma permute_and_score_spec target features function n_permutations
    random_seed st t rows :
  heap st !! target = Some (Arr1 t) ->
  heap st !! features = Some (Arr2 rows) ->
  rows <> [] ->
  (0 <= n_permutations)%Z ->
  let copy := fresh (dom (heap st)) in
  let draws :=
    permutation_draws t (Z.to_nat n_permutations) (np_seed random_seed) in
  permute_and_score target features function n_permutations random_seed st =
  Ok (columns_to_rows (List.length rows)
        (List.map (permutation_column function rows) draws),
      mkState (<[ copy := Arr1 (last_value draws t) ]> (heap st))
              (last_rng draws (np_seed random_seed)) (stdout st)).
Proof.
  intros Ht Hf Hrne Hn copy draws.
  assert (Hfresh : heap st !! copy = None).
  { apply not_elem_of_dom. apply is_fresh. }
  unfold permute_and_score.
  rewrite (bind_ok _ _ st rows st) by (unfold load2; rewrite Hf; reflexivity).
  destruct (n_permutations <? 0)%Z eqn:E; [apply Z.ltb_lt in E; lia|].
  rewrite (bind_ok _ _ st copy (set_heap (<[ copy := Arr1 t ]> (heap st)) st)).
  2:{ unfold array. rewrite (bind_ok _ _ st t st)
        by (unfold load1; rewrite Ht; reflexivity).
      reflexivity. }
  rewrite (bind_ok _ _ _ tt
             (mkState (<[ copy := Arr1 t ]> (heap st)) (np_seed random_seed)
                      (stdout st))) by reflexivity.
  set (st1 := mkState (<[ copy := Arr1 t ]> (heap st)) (np_seed random_seed)
                      (stdout st)).
  assert (Ht1 : heap st1 !! copy = Some (Arr1 t))
    by (unfold st1; cbn [heap]; apply lookup_insert_eq).
  assert (Hf1 : heap st1 !! features = Some (Arr2 rows)).
  { unfold st1. cbn [heap]. rewrite lookup_insert_ne by congruence.
    exact Hf. }
  rewrite (bind_ok _ _ _ _ _
             (permutation_loop_spec copy features function rows
                (Z.to_nat n_permutations) st1 t Ht1 Hf1 Hrne)).
  unfold ret, st1. cbn [heap rng stdout].
  rewrite insert_insert_eq. reflexivity.
Qed.

Lemma columns_to_rows_length k columns :
  List.length (columns_to_rows k columns) = k.
Proof. unfold columns_to_rows. rewrite List.length_map. apply List.length_seq. Qed.

Lemma columns_to_rows_nth k columns j :
  (j < k)%nat ->
  List.nth_error (columns_to_rows k columns) j =
  Some (List.map (fun col => List.nth j col 0%R) columns).
Proof.
  intros Hj. unfold columns_to_rows.
  rewrite List.nth_error_map.
  rewrite (List.nth_error_nth' _ O) by (rewrite List.length_seq; exact Hj).
  rewrite List.seq_nth by exact Hj. reflexivity.
Qed.

(** [compute_confidence_interval] on a target that is not empty, a feature
    matrix with a row at least and as many columns as the target has
    entries, and a number of samplings that is not negative. *)
Lemma compute_confidence_interval_spec target features function n_samplings
    confidence random_seed st t rows :
  heap st !! target = Some (Arr1 t) ->
  heap st !! features = Some (Arr2 rows) ->
  t <> [] -> rows <> [] ->
  Forall (fun row => List.length row = List.length t) rows ->
  (0 <= n_samplings)%Z ->
  let draws :=
    bootstrap_draws (List.length t) (Z.to_nat n_samplings)
                    (np_seed random_seed) in
  compute_confidence_interval target features function n_samplings confidence
                              random_seed st =
  Ok (List.map (half_width confidence n_samplings)
        (columns_to_rows (List.length rows)
           (List.map (bootstrap_column function t rows) draws)),
      set_rng (last_rng draws (np_seed random_seed)) st).
Proof.
  intros Ht Hf Htne Hrne Hshape Hn draws.
  unfold compute_confidence_interval.
  rewrite (bind_ok _ _ st rows st) by (unfold load2; rewrite Hf; reflexivity).
  destruct (n_samplings <? 0)%Z eqn:E; [apply Z.ltb_lt in E; lia|].
  rewrite (bind_ok _ _ st tt (set_rng (np_seed random_seed) st))
    by reflexivity.
  rewrite (bind_ok _ _ _ _ _
             (bootstrap_loop_spec target features function t rows
                (Z.to_nat n_samplings) (set_rng (np_seed random_seed) st)
                Ht Hf Htne Hrne Hshape)).
  cbn [set_rng rng heap stdout]. fold draws.
  destruct (columns_to_rows (List.length rows)
              (List.map (bootstrap_column function t rows) draws))
    as [|r rs] eqn:E2.
  - apply (f_equal (@List.length _)) in E2.
    rewrite columns_to_rows_length in E2.
    destruct rows; [congruence|discriminate].
  - reflexivity.
Qed.

Lemma bootstrap_draws_length size n g :
  List.length (bootstrap_draws size n g) = n.
Proof.
  revert g. induction n as [|n IH]; intros g; simpl; [|rewrite IH];
    reflexivity.
Qed.

Lemma permutation_draws_length v n g :
  List.length (permutation_draws v n g) = n.
Proof.
  revert v g. induction n as [|n IH]; intros v g; simpl; [|rewrite IH];
    reflexivity.
Qed.

Lemma sample_size_0 : sample_size 0 = O.
Proof. reflexivity. Qed.

End Rounds.

(** ** The functions on well-formed inputs *)

Section WellFormed.
Context `{Externals}.

Local Open Scope M_scope.

Lemma permutation_draws_step v n g i d_prev d :
  List.nth_error (permutation_draws v n g) i = Some d_prev ->
  List.nth_error (permutation_draws v n g) (S i) = Some d ->
  d = np_shuffle d_prev.1 d_prev.2.
Proof.
  revert v g i. induction n as [|n IH]; intros v g i Hp Hd.
  - destruct i; discriminate.
  - cbn [permutation_draws] in Hp, Hd. destruct i as [|i].
    + cbn in Hp. injection Hp as <-.
      cbn [List.nth_error] in Hd. destruct n as [|n]; [discriminate|].
      cbn in Hd. congruence.
    + cbn [List.nth_error] in Hp, Hd. exact (IH _ _ _ Hp Hd).
Qed.

Lemma permutation_draws_first v n g d :
  List.nth_error (permutation_draws v n g) 0 = Some d ->
  d = np_shuffle v g.
Proof. destruct n; [discriminate|]. cbn. congruence. Qed.

Lemma permutation_round_no_rows target features function st v :
  heap st !! target = Some (Arr1 v) ->
  heap st !! features = Some (Arr2 []) ->
  permutation_round target features function st = Err ValueError.
Proof.
  intros Ht Hf.
  assert (Hne : target <> features) by congruence.
  set (d := np_shuffle v (rng st)).
  set (st1 := mkState (<[ target := Arr1 d.1 ]> (heap st)) d.2 (stdout st)).
  unfold permutation_round.
  rewrite (bind_ok _ _ st tt st1)
    by (unfold shuffle; rewrite Ht; reflexivity).
  rewrite (bind_ok _ _ st1 d.2 st1) by reflexivity.
  apply bind_err. unfold score.
  rewrite (bind_ok _ _ st1 d.1 st1).
  2:{ unfold load1, st1. cbn [heap]. rewrite lookup_insert_eq.
      reflexivity. }
  rewrite (bind_ok _ _ st1 [] st1).
  2:{ unfold load2, st1. cbn [heap]. rewrite lookup_insert_ne by exact Hne.
      rewrite Hf. reflexivity. }
  reflexivity.
Qed.

(** C8. [permute_and_score] leaves every array that exists when it is
    called as it is: the caller's target, the feature matrix and any other
    object.  The shuffles write to the copy that [array(target)] makes, a new
    object.  On a target, a feature matrix with a row at least and a number
    of permutations that is not negative the function returns. *)
Theorem permute_and_score_frame (target features : loc) (function : scoring)
    (n_permutations random_seed : Z) (st : state) :
  (forall result st',
     permute_and_score target features function n_permutations random_seed st
       = Ok (result, st') ->
     forall l, is_Some (heap st !! l) -> heap st' !! l = heap st !! l) /\
  (forall t rows,
     heap st !! target = Some (Arr1 t) ->
     heap st !! features = Some (Arr2 rows) ->
     rows <> [] -> (0 <= n_permutations)%Z ->
     exists result st',
       permute_and_score target features function n_permutations random_seed
                         st = Ok (result, st') /\
       heap st' !! target = Some (Arr1 t) /\
       heap st' !! features = Some (Arr2 rows)).
Proof.
  assert (Hfresh : heap st !! fresh (dom (heap st)) = None).
  { apply not_elem_of_dom. apply is_fresh. }
  assert (Hframe : forall (a : ndarray) l,
             is_Some (heap st !! l) ->
             <[ fresh (dom (heap st)) := a ]> (heap st) !! l = heap st !! l).
  { intros a l [x Hx]. apply lookup_insert_ne. congruence. }
  split.
  - intros result st' Hrun l Hl.
    unfold permute_and_score in Hrun.
    apply bind_inv in Hrun as (rows & st0 & Hload & Hrun).
    unfold load2 in Hload.
    destruct (heap st !! features) as [[|rows']|] eqn:Hf; try discriminate.
    injection Hload as <- <-.
    destruct (n_permutations <? 0)%Z eqn:E; [discriminate|].
    apply Z.ltb_ge in E.
    apply bind_inv in Hrun as (copy & st1 & Hcopy & Hrun).
    unfold array in Hcopy.
    apply bind_inv in Hcopy as (t & st2 & Hload & Hcopy).
    unfold load1 in Hload.
    destruct (heap st !! target) as [[t'|]|] eqn:Ht; try discriminate.
    injection Hload as <- <-.
    destruct rows' as [|row rows'].
    + unfold alloc in Hcopy. injection Hcopy as <- <-.
      apply bind_inv in Hrun as (u & st3 & Hseed & Hrun).
      unfold seed in Hseed. injection Hseed as <- <-.
      apply bind_inv in Hrun as (columns & st4 & Hloop & Hrun).
      unfold ret in Hrun. injection Hrun as <- <-.
      destruct (Z.to_nat n_permutations) as [|n].
      * cbn in Hloop. unfold ret in Hloop. injection Hloop as <- <-.
        cbn [heap set_rng set_heap]. apply Hframe, Hl.
      * cbn [for_range] in Hloop.
        rewrite (bind_err _ _ _ ValueError) in Hloop; [discriminate|].
        apply (permutation_round_no_rows _ _ _ _ t').
        -- cbn [heap set_rng set_heap]. apply lookup_insert_eq.
        -- cbn [heap set_rng set_heap].
           rewrite lookup_insert_ne by congruence. exact Hf.
    + assert (Hrne : row :: rows' <> []) by discriminate.
      pose proof (permute_and_score_spec target features function
                    n_permutations random_seed st t' (row :: rows')
                    Ht Hf Hrne E) as Hspec.
      cbv zeta in Hspec. unfold permute_and_score in Hspec.
      rewrite (bind_ok _ _ st (row :: rows') st) in Hspec
        by (unfold load2; rewrite Hf; reflexivity).
      destruct (n_permutations <? 0)%Z; [discriminate|].
      unfold array in Hspec.
      rewrite (bind_ok _ _ st copy st1) in Hspec.
      2:{ rewrite (bind_ok _ _ st t' st)
            by (unfold load1; rewrite Ht; reflexivity).
          exact Hcopy. }
      rewrite Hrun in Hspec. injection Hspec as _ ->.
      cbn [heap]. apply Hframe, Hl.
  - intros t rows Ht Hf Hrne Hn.
    eexists. eexists. split.
    + apply (permute_and_score_spec target features function n_permutations
               random_seed st t rows Ht Hf Hrne Hn).
    + cbn [heap].
      rewrite !Hframe by (rewrite ?Ht, ?Hf; eexists; reflexivity).
      split; assumption.
Qed.

(** C9. In [permute_and_score] the shuffle of the first round is applied to
    the private copy of the target, and the shuffle of each later round is
    applied to the copy as the round before left it (and from the generator
    state that shuffle left): column [i] of the result holds the scores
    against the [i]-th of these cumulative shuffles, and the copy ends with
    the last of them. *)
Theorem permute_and_score_cumulative (target features : loc)
    (function : scoring) (n_permutations random_seed : Z) (st : state)
    (t : list R) (rows : list (list R)) :
  heap st !! target = Some (Arr1 t) ->
  heap st !! features = Some (Arr2 rows) ->
  rows <> [] -> (0 <= n_permutations)%Z ->
  exists (draws : list (list R * rng_state)) (st' : state),
    permute_and_score target features function n_permutations random_seed st
      = Ok (columns_to_rows (List.length rows)
              (List.map (permutation_column function rows) draws), st') /\
    List.length draws = Z.to_nat n_permutations /\
    (forall d, List.nth_error draws 0 = Some d ->
               d = np_shuffle t (np_seed random_seed)) /\
    (forall i d_prev d,
       List.nth_error draws i = Some d_prev ->
       List.nth_error draws (S i) = Some d ->
       d = np_shuffle d_prev.1 d_prev.2) /\
    heap st' !! fresh (dom (heap st)) = Some (Arr1 (last_value draws t)) /\
    heap st' !! target = Some (Arr1 t).
Proof.
  intros Ht Hf Hrne Hn.
  exists (permutation_draws t (Z.to_nat n_permutations) (np_seed random_seed)).
  eexists. split; [|split; [|split; [|split; [|split]]]].
  - apply (permute_and_score_spec target features function n_permutations
             random_seed st t rows Ht Hf Hrne Hn).
  - apply permutation_draws_length.
  - apply permutation_draws_first.
  - apply permutation_draws_step.
  - cbn [heap]. apply lookup_insert_eq.
  - cbn [heap]. rewrite lookup_insert_ne; [exact Ht|].
    intros E. pose proof (is_fresh (dom (heap st))) as Hfr.
    rewrite E in Hfr. apply Hfr. apply elem_of_dom. eexists. exact Ht.
Qed.

(** C10. The draws of the two loops do not depend on the scoring function.
    For any two scoring functions, whatever they draw from the generator,
    [compute_confidence_interval] scores the same bootstrap index draws and
    [permute_and_score] scores the same shuffled targets; the draws are those
    that the seed, the number of rounds and the target alone give
    ([bootstrap_draws], [permutation_draws]), and the generator is left in
    the state of the last draw. *)
Theorem draws_independent_of_scoring (target features : loc)
    (function1 function2 : scoring) (n_samplings n_permutations : Z)
    (confidence : R) (random_seed : Z) (st : state)
    (t : list R) (rows : list (list R)) :
  heap st !! target = Some (Arr1 t) ->
  heap st !! features = Some (Arr2 rows) ->
  t <> [] -> rows <> [] ->
  Forall (fun row => List.length row = List.length t) rows ->
  (0 <= n_samplings)%Z -> (0 <= n_permutations)%Z ->
  let bdraws :=
    bootstrap_draws (List.length t) (Z.to_nat n_samplings)
                    (np_seed random_seed) in
  let pdraws :=
    permutation_draws t (Z.to_nat n_permutations) (np_seed random_seed) in
  let intervals := fun function : scoring =>
    List.map (half_width confidence n_samplings)
      (columns_to_rows (List.length rows)
         (List.map (bootstrap_column function t rows) bdraws)) in
  let null_scores := fun function : scoring =>
    columns_to_rows (List.length rows)
      (List.map (permutation_column function rows) pdraws) in
  (exists s1 s2,
     compute_confidence_interval target features function1 n_samplings
       confidence random_seed st = Ok (intervals function1, s1) /\
     compute_confidence_interval target features function2 n_samplings
       confidence random_seed st = Ok (intervals function2, s2) /\
     rng s1 = last_rng bdraws (np_seed random_seed) /\
     rng s2 = rng s1) /\
  (exists s1 s2,
     permute_and_score target features function1 n_permutations random_seed
       st = Ok (null_scores function1, s1) /\
     permute_and_score target features function2 n_permutations random_seed
       st = Ok (null_scores function2, s2) /\
     rng s1 = last_rng pdraws (np_seed random_seed) /\
     rng s2 = rng s1 /\ heap s2 = heap s1).
Proof.
  intros Ht Hf Htne Hrne Hshape Hns Hnp bdraws pdraws intervals null_scores.
  split.
  - eexists. eexists. split; [|split; [|split]].
    + apply (compute_confidence_interval_spec target features function1
               n_samplings confidence random_seed st t rows
               Ht Hf Htne Hrne Hshape Hns).
    + apply (compute_confidence_interval_spec target features function2
               n_samplings confidence random_seed st t rows
               Ht Hf Htne Hrne Hshape Hns).
    + reflexivity.
    + reflexivity.
  - eexists. eexists. split; [|split; [|split; [|split]]].
    + apply (permute_and_score_spec target features function1 n_permutations
               random_seed st t rows Ht Hf Hrne Hnp).
    + apply (permute_and_score_spec target features function2 n_permutations
               random_seed st t rows Ht Hf Hrne Hnp).
    + reflexivity.
    + reflexivity.
    + reflexivity.
Qed.

Lemma np_std_cons x f :
  np_std (x :: f) =
  fin (sqrt (mean (List.map (fun y => ((y - mean (x :: f))
                                       * (y - mean (x :: f)))%R) (x :: f)))).
Proof. reflexivity. Qed.

(** The entries of the result of [compute_confidence_interval] when there is
    a round at least. *)
Lemma half_widths_nth confidence n_samplings k columns j :
  columns <> [] -> (j < k)%nat ->
  exists s : R,
    np_std (List.map (fun col => List.nth j col 0%R) columns) = fin s /\
    List.nth_error
      (List.map (half_width confidence n_samplings)
                (columns_to_rows k columns)) j =
    Some (fin (norm_ppf confidence * s / sqrt (IZR n_samplings))).
Proof.
  intros Hne Hj.
  destruct columns as [|col columns]; [congruence|].
  eexists. split.
  - cbn [List.map]. apply np_std_cons.
  - rewrite List.nth_error_map, columns_to_rows_nth by exact Hj.
    cbn [option_map List.map]. unfold half_width. rewrite np_std_cons.
    reflexivity.
Qed.

(** C2, as the code has it.  With two samplings or more and a sample size of
    three or more, [compute_confidence_interval] returns, for each selected
    feature, [norm_ppf confidence * stdev / sqrt n_samplings], where [stdev]
    is the standard deviation of the scores of the feature across the
    bootstrap rounds and [norm_ppf confidence] is the value of the inverse
    normal distribution function at [confidence] itself (the one-sided
    quantile). *)
Theorem compute_confidence_interval_half_width (target features : loc)
    (function : scoring) (n_samplings : Z) (confidence : R)
    (random_seed : Z) (st : state) (t : list R) (rows : list (list R)) :
  heap st !! target = Some (Arr1 t) ->
  heap st !! features = Some (Arr2 rows) ->
  rows <> [] ->
  Forall (fun row => List.length row = List.length t) rows ->
  (0 < confidence < 1)%R ->
  (2 <= n_samplings)%Z ->
  (3 <= sample_size (List.length t))%nat ->
  let columns :=
    List.map (bootstrap_column function t rows)
      (bootstrap_draws (List.length t) (Z.to_nat n_samplings)
                       (np_seed random_seed)) in
  exists (intervals : list float64) (st' : state),
    compute_confidence_interval target features function n_samplings
                                confidence random_seed st
      = Ok (intervals, st') /\
    List.length intervals = List.length rows /\
    forall j, (j < List.length rows)%nat ->
      exists stdev : R,
        np_std (List.map (fun col => List.nth j col 0%R) columns)
          = fin stdev /\
        List.nth_error intervals j =
        Some (fin (norm_ppf confidence * stdev / sqrt (IZR n_samplings))).
Proof.
  intros Ht Hf Hrne Hshape _ Hn Hs columns.
  assert (Htne : t <> []).
  { intros ->. cbn [List.length] in Hs. rewrite sample_size_0 in Hs. lia. }
  eexists. eexists. split; [|split].
  - apply (compute_confidence_interval_spec target features function
             n_samplings confidence random_seed st t rows
             Ht Hf Htne Hrne Hshape). lia.
  - rewrite List.length_map. apply columns_to_rows_length.
  - intros j Hj. apply half_widths_nth; [|exact Hj].
    intros E. apply (f_equal (@List.length _)) in E.
    rewrite List.length_map, bootstrap_draws_length in E.
    cbn [List.length] in E. lia.
Qed.

End WellFormed.

(** ** The split of the features *)

Lemma list_sum_repeat (x n : nat) :
  List.list_sum (List.repeat x n) = (n * x)%nat.
Proof. induction n as [|n IH]; simpl; [reflexivity|rewrite IH; lia]. Qed.

Lemma section_sizes_sum (total sections : nat) :
  (0 < sections)%nat ->
  List.list_sum (section_sizes total sections) = total.
Proof.
  intros Hk. unfold section_sizes.
  rewrite List.list_sum_app, !list_sum_repeat.
  pose proof (Nat.div_mod_eq total sections) as E.
  pose proof (Nat.mod_upper_bound total sections) as Hr.
  nia.
Qed.

Lemma section_sizes_length (total sections : nat) :
  (0 < sections)%nat ->
  List.length (section_sizes total sections) = sections.
Proof.
  intros Hk. unfold section_sizes.
  rewrite List.length_app, !List.repeat_length.
  pose proof (Nat.mod_upper_bound total sections). lia.
Qed.

Lemma section_sizes_positive (total sections : nat) :
  (0 < sections <= total)%nat ->
  Forall (fun n => (0 < n)%nat) (section_sizes total sections).
Proof.
  intros [Hk Hle]. unfold section_sizes.
  assert (Hq : (0 < total / sections)%nat)
    by (apply Nat.div_str_pos; lia).
  apply List.Forall_app. split; apply List.Forall_forall; intros n Hn;
    apply List.repeat_spec in Hn; lia.
Qed.

Lemma split_by_concat {A} (sizes : list nat) (l : list A) :
  List.list_sum sizes = List.length l ->
  List.concat (split_by sizes l) = l.
Proof.
  revert l. induction sizes as [|n sizes IH]; intros l Hsum.
  - destruct l; [reflexivity|discriminate].
  - cbn [split_by List.concat].
    change (List.list_sum (n :: sizes))
      with (n + List.list_sum sizes)%nat in Hsum.
    rewrite IH by (rewrite List.length_skipn; lia).
    apply List.firstn_skipn.
Qed.

Lemma split_by_nonempty {A} (sizes : list nat) (l : list A) :
  (List.list_sum sizes <= List.length l)%nat ->
  Forall (fun n => (0 < n)%nat) sizes ->
  Forall (fun chunk => chunk <> []) (split_by sizes l).
Proof.
  revert l. induction sizes as [|n sizes IH]; intros l Hsum Hpos.
  - constructor.
  - inversion Hpos as [|? ? Hn Hpos']; subst.
    change (List.list_sum (n :: sizes))
      with (n + List.list_sum sizes)%nat in Hsum.
    cbn [split_by]. constructor.
    + intros E. apply (f_equal (@List.length _)) in E.
      rewrite List.length_firstn in E. cbn in E. lia.
    + apply IH; [rewrite List.length_skipn; lia|exact Hpos'].
Qed.

Lemma split_by_length {A} (sizes : list nat) (l : list A) :
  List.length (split_by sizes l) = List.length sizes.
Proof.
  revert l. induction sizes as [|n sizes IH]; intros l; simpl;
    [|rewrite IH]; reflexivity.
Qed.

(** ** Computations that only add to the store *)

Section Frames.
Context `{Externals}.

Local Open Scope M_scope.

Lemma extending_ret {A} (a : A) : extending (ret a).
Proof. intros st b st' E. injection E as _ <-. reflexivity. Qed.

Lemma extending_bind {A B} (m : M A) (k : A -> M B) :
  extending m -> (forall a, extending (k a)) -> extending (bind m k).
Proof.
  intros Hm Hk st b st2 E.
  apply bind_inv in E as (a & st1 & E1 & E2).
  transitivity (heap st1); [exact (Hm _ _ _ E1)|exact (Hk _ _ _ _ E2)].
Qed.

Lemma extending_lift {A} (r : res A) : extending (lift r).
Proof.
  intros st a st' E. unfold lift in E. destruct r; [|discriminate].
  injection E as _ <-. reflexivity.
Qed.

Lemma extending_raise {A} (e : exn) : extending (@raise _ A e).
Proof. intros st a st' E. discriminate. Qed.


Lemma extending_get_state : extending get_state.
Proof. intros st a st' E. injection E as _ <-. reflexivity. Qed.

Lemma extending_set_state g : extending (set_state g).
Proof. intros st a st' E. injection E as _ <-. reflexivity. Qed.

Lemma extending_seed z : extending (seed z).
Proof. intros st a st' E. injection E as _ <-. reflexivity. Qed.

Lemma extending_load1 l : extending (load1 l).
Proof.
  intros st a st' E. unfold load1 in E.
  destruct (heap st !! l) as [[v|rows]|]; try discriminate.
  injection E as _ <-. reflexivity.
Qed.

Lemma extending_load2 l : extending (load2 l).
Proof.
  intros st a st' E. unfold load2 in E.
  destruct (heap st !! l) as [[v|rows]|]; try discriminate.
  injection E as _ <-. reflexivity.
Qed.


Lemma extending_choice a size : extending (choice a size).
Proof.
  intros st l st' E. unfold choice in E. destruct a; [discriminate|].
  injection E as _ <-. reflexivity.
Qed.

Lemma extending_apply_along_axis_rows func1d rows :
  extending (apply_along_axis_rows func1d rows).
Proof.
  intros st l st' E. unfold apply_along_axis_rows in E.
  destruct rows; [discriminate|]. injection E as _ <-. reflexivity.
Qed.

Lemma extending_for_range {A} (n : nat) (body : M A) :
  extending body -> extending (for_range n body).
Proof.
  intros Hb. induction n as [|n IH]; cbn [for_range].
  - apply extending_ret.
  - apply extending_bind; [exact Hb|]. intros x.
    apply extending_bind; [exact IH|]. intros xs. apply extending_ret.
Qed.

Lemma extending_bootstrap_round target features function :
  extending (bootstrap_round target features function).
Proof.
  unfold bootstrap_round.
  apply extending_bind; [apply extending_load1|]. intros t.
  apply extending_bind; [apply extending_load2|]. intros rows.
  apply extending_bind; [apply extending_choice|]. intros random_is.
  apply extending_bind; [apply extending_lift|]. intros sampled_target.
  apply extending_bind; [apply extending_lift|]. intros sampled_features.
  apply extending_bind; [apply extending_get_state|]. intros random_state.
  apply extending_bind; [apply extending_apply_along_axis_rows|].
  intros column.
  apply extending_bind; [apply extending_set_state|]. intros _.
  apply extending_ret.
Qed.

Lemma extending_compute_confidence_interval target features function
    n_samplings confidence random_seed :
  extending (compute_confidence_interval target features function n_samplings
                                         confidence random_seed).
Proof.
  unfold compute_confidence_interval.
  apply extending_bind; [apply extending_load2|]. intros rows.
  destruct (n_samplings <? 0)%Z; [apply extending_raise|].
  apply extending_bind; [apply extending_seed|]. intros _.
  apply extending_bind;
    [apply extending_for_range, extending_bootstrap_round|].
  intros columns.
  destruct (columns_to_rows (List.length rows) columns);
    [apply extending_raise|apply extending_ret].
Qed.


End Frames.

(** ** The phases of match *)

Section Dispatch.
Context `{Externals}.

Local Open Scope M_scope.

Lemma columns_to_rows_pure_aux {D} (g : D -> list R -> R) (ds : list D)
    (l pre : list (list R)) :
  List.map (fun j => List.map (fun col => List.nth j col 0%R)
                      (List.map (fun d => List.map (g d) (pre ++ l)) ds))
           (List.seq (List.length pre) (List.length l)) =
  List.map (fun x => List.map (fun d => g d x) ds) l.
Proof.
  revert pre. induction l as [|x l IH]; intros pre; [reflexivity|].
  cbn [List.length List.seq List.map]. f_equal.
  - rewrite List.map_map. apply List.map_ext. intros d.
    rewrite List.map_app, List.app_nth2 by (rewrite List.length_map; lia).
    rewrite List.length_map, Nat.sub_diag. reflexivity.
  - specialize (IH (pre ++ [x])).
    rewrite List.length_app, Nat.add_1_r in IH.
    rewrite <- IH. apply List.map_ext. intros j.
    rewrite <- List.app_assoc. reflexivity.
Qed.

Lemma columns_to_rows_pure {D} (g : D -> list R -> R) (ds : list D)
    (l : list (list R)) :
  columns_to_rows (List.length l)
                  (List.map (fun d => List.map (g d) l) ds) =
  List.map (fun x => List.map (fun d => g d x) ds) l.
Proof. apply (columns_to_rows_pure_aux g ds l []). Qed.

Lemma mapM_alloc_spec (chunks : list (list (list R))) (st : state) :
  exists ls st',
    mapM (fun chunk => alloc (Arr2 chunk)) chunks st = Ok (ls, st') /\
    Forall2 (fun l chunk => heap st' !! l = Some (Arr2 chunk)) ls chunks /\
    heap st ⊆ heap st' /\ rng st' = rng st /\ stdout st' = stdout st.
Proof.
  revert st. induction chunks as [|chunk chunks IH]; intros st.
  - exists [], st. split; [reflexivity|]. split; [constructor|].
    split; [reflexivity|]. split; reflexivity.
  - set (l := fresh (dom (heap st))).
    set (st1 := set_heap (<[ l := Arr2 chunk ]> (heap st)) st).
    assert (Hfresh : heap st !! l = None)
      by (apply not_elem_of_dom, is_fresh).
    destruct (IH st1) as (ls & st' & Hrun & Hall & Hsub & Hrng & Hout).
    exists (l :: ls), st'. split; [|split; [|split; [|split]]].
    + cbn [mapM]. rewrite (bind_ok _ _ st l st1) by reflexivity.
      rewrite (bind_ok _ _ _ _ _ Hrun). reflexivity.
    + constructor; [|exact Hall].
      apply (lookup_weaken (heap st1)); [|exact Hsub].
      unfold st1. cbn [heap set_heap]. apply lookup_insert_eq.
    + transitivity (heap st1); [|exact Hsub].
      unfold st1. cbn [heap set_heap]. apply insert_subseteq, Hfresh.
    + rewrite Hrng. reflexivity.
    + rewrite Hout. reflexivity.
Qed.

Lemma score_pure target features function f st t rows :
  heap st !! target = Some (Arr1 t) ->
  heap st !! features = Some (Arr2 rows) ->
  rows <> [] ->
  pure_scoring function f ->
  score target features function st = Ok (List.map (f t) rows, st).
Proof.
  intros Ht Hf Hrne Hp. unfold score.
  rewrite (bind_ok _ _ st t st) by (unfold load1; rewrite Ht; reflexivity).
  rewrite (bind_ok _ _ st rows st) by (unfold load2; rewrite Hf; reflexivity).
  unfold apply_along_axis_rows. destruct rows as [|row rows]; [congruence|].
  rewrite (map_rows_pure function f t _ _ Hp). cbn [fst snd].
  rewrite set_rng_rng. reflexivity.
Qed.

Lemma score_no_rows target features function st t :
  heap st !! target = Some (Arr1 t) ->
  heap st !! features = Some (Arr2 []) ->
  score target features function st = Err ValueError.
Proof.
  intros Ht Hf. unfold score.
  rewrite (bind_ok _ _ st t st) by (unfold load1; rewrite Ht; reflexivity).
  rewrite (bind_ok _ _ st [] st) by (unfold load2; rewrite Hf; reflexivity).
  reflexivity.
Qed.

Lemma permute_and_score_pure target features function f n_permutations
    random_seed st t rows :
  heap st !! target = Some (Arr1 t) ->
  heap st !! features = Some (Arr2 rows) ->
  rows <> [] -> (0 <= n_permutations)%Z ->
  pure_scoring function f ->
  exists st',
    permute_and_score target features function n_permutations random_seed st
    = Ok (List.map
            (fun x => List.map (fun d : list R * rng_state => f d.1 x)
               (permutation_draws t (Z.to_nat n_permutations)
                                  (np_seed random_seed))) rows,
          st').
Proof.
  intros Ht Hf Hrne Hn Hp. eexists.
  rewrite (permute_and_score_spec target features function n_permutations
             random_seed st t rows Ht Hf Hrne Hn).
  f_equal. f_equal.
  rewrite <- (columns_to_rows_pure (fun d : list R * rng_state => f d.1)).
  f_equal. apply List.map_ext. intros d. unfold permutation_column.
  rewrite (map_rows_pure function f d.1 rows d.2 Hp). reflexivity.
Qed.

Lemma multiprocess_score_spec target function f n_jobs st t ls chunks :
  heap st !! target = Some (Arr1 t) ->
  pure_scoring function f ->
  Forall2 (fun l chunk => heap st !! l = Some (Arr2 chunk)) ls chunks ->
  Forall (fun chunk => chunk <> []) chunks ->
  multiprocess multiprocess_score
    (List.map (fun fs => (target, fs, function)) ls) n_jobs st =
  Ok (List.map (List.map (f t)) chunks, st).
Proof.
  intros Ht Hp Hall Hne. unfold multiprocess.
  assert (E : mapM_res
                (fun a => (do r <- multiprocess_score a st; Ok r.1)%res)
                (List.map (fun fs => (target, fs, function)) ls) =
              Ok (List.map (List.map (f t)) chunks)).
  { induction Hall as [|l chunk ls chunks Hl _ IH]; [reflexivity|].
    inversion Hne as [|? ? Hc Hne']; subst.
    cbn [List.map mapM_res]. unfold multiprocess_score at 1.
    rewrite (score_pure target l function f st t chunk Ht Hl Hc Hp).
    cbn [rbind fst]. rewrite (IH Hne'). reflexivity. }
  rewrite E. reflexivity.
Qed.

Lemma multiprocess_permute_spec target function f n_jobs n_permutations
    random_seed st t ls chunks :
  heap st !! target = Some (Arr1 t) ->
  pure_scoring function f ->
  (0 <= n_permutations)%Z ->
  Forall2 (fun l chunk => heap st !! l = Some (Arr2 chunk)) ls chunks ->
  Forall (fun chunk => chunk <> []) chunks ->
  multiprocess multiprocess_permute_and_score
    (List.map (fun fs => (target, fs, function, n_permutations, random_seed))
              ls) n_jobs st =
  Ok (List.map
        (List.map
           (fun x => List.map (fun d : list R * rng_state => f d.1 x)
              (permutation_draws t (Z.to_nat n_permutations)
                                 (np_seed random_seed)))) chunks, st).
Proof.
  intros Ht Hp Hn Hall Hne. unfold multiprocess.
  match goal with
  | |- match ?m with _ => _ end = Ok (?r, _) => assert (E : m = Ok r)
  end.
  { induction Hall as [|l chunk ls chunks Hl _ IH]; [reflexivity|].
    inversion Hne as [|? ? Hc Hne']; subst.
    cbn [List.map mapM_res]. unfold multiprocess_permute_and_score at 1.
    destruct (permute_and_score_pure target l function f n_permutations
                random_seed st t chunk Ht Hl Hc Hn Hp) as (st' & ->).
    cbn [rbind fst]. rewrite (IH Hne'). reflexivity. }
  rewrite E. reflexivity.
Qed.

Lemma concatenate_map {A B} (g : A -> B) (l : list (list A)) :
  l <> [] ->
  concatenate (List.map (List.map g) l) = Ok (List.map g (List.concat l)).
Proof.
  destruct l as [|a l]; [congruence|]. intros _.
  rewrite List.concat_map. reflexivity.
Qed.

Lemma sections_of_facts (rows : list (list R)) (n_jobs : Z) :
  (1 <= n_jobs <= Z.of_nat (List.length rows))%Z ->
  List.concat (sections_of rows n_jobs) = rows /\
  Forall (fun chunk => chunk <> []) (sections_of rows n_jobs) /\
  sections_of rows n_jobs <> [].
Proof.
  intros Hk. unfold sections_of.
  assert (Hpos : (0 < Z.to_nat n_jobs <= List.length rows)%nat) by lia.
  pose proof (section_sizes_sum (List.length rows) (Z.to_nat n_jobs)
                ltac:(lia)) as Hsum.
  split; [|split].
  - apply split_by_concat, Hsum.
  - apply split_by_nonempty; [lia|].
    apply section_sizes_positive, Hpos.
  - intros E. apply (f_equal (@List.length _)) in E.
    rewrite split_by_length, section_sizes_length in E by lia.
    cbn in E. lia.
Qed.

Lemma match_scores_spec target features function f n_jobs st t rows :
  heap st !! target = Some (Arr1 t) ->
  heap st !! features = Some (Arr2 rows) ->
  pure_scoring function f ->
  (1 <= n_jobs <= Z.of_nat (List.length rows))%Z ->
  exists split st',
    match_scores target features function n_jobs st =
      Ok ((split, List.map (f t) rows), st') /\
    heap st ⊆ heap st' /\
    Forall2 (fun l chunk => heap st' !! l = Some (Arr2 chunk))
            split (sections_of rows n_jobs).
Proof.
  intros Ht Hf Hp Hk.
  destruct (sections_of_facts rows n_jobs Hk) as (Hcat & Hne & Hnil).
  set (sta := mkState (heap st) (rng st) (stdout st ++ [UsingProcesses n_jobs])).
  destruct (mapM_alloc_spec (sections_of rows n_jobs) sta)
    as (ls & stb & Hrun & Hall & Hsub & _ & _).
  set (stc := mkState (heap stb) (rng stb) (stdout stb ++ [ComputingScores])).
  exists ls, stc. split; [|split].
  - unfold match_scores.
    rewrite (bind_ok _ _ st tt sta) by reflexivity.
    rewrite (bind_ok _ _ sta ls stb).
    2:{ unfold array_split.
        rewrite (bind_ok _ _ sta rows sta)
          by (unfold load2, sta; cbn [heap]; rewrite Hf; reflexivity).
        destruct (n_jobs <=? 0)%Z eqn:E; [apply Z.leb_le in E; lia|].
        exact Hrun. }
    rewrite (bind_ok _ _ stb tt stc) by reflexivity.
    rewrite (bind_ok _ _ stc (List.map (List.map (f t))
                                       (sections_of rows n_jobs)) stc).
    2:{ apply (multiprocess_score_spec target function f n_jobs stc t);
          [|exact Hp|exact Hall|exact Hne].
        unfold stc. cbn [heap].
        apply (lookup_weaken (heap sta)); [exact Ht|exact Hsub]. }
    rewrite (bind_ok _ _ stc (List.map (f t) rows) stc).
    2:{ unfold lift. rewrite concatenate_map, Hcat by exact Hnil.
        reflexivity. }
    reflexivity.
  - exact Hsub.
  - exact Hall.
Qed.

Lemma match_permutation_scores_spec target function f n_jobs n_permutations
    random_seed st t split chunks :
  heap st !! target = Some (Arr1 t) ->
  pure_scoring function f ->
  (0 <= n_permutations)%Z ->
  Forall2 (fun l chunk => heap st !! l = Some (Arr2 chunk)) split chunks ->
  Forall (fun chunk => chunk <> []) chunks ->
  chunks <> [] ->
  exists st',
    match_permutation_scores target split function n_jobs n_permutations
                             random_seed st =
    Ok (List.map
          (fun x => List.map (fun d : list R * rng_state => f d.1 x)
             (permutation_draws t (Z.to_nat n_permutations)
                                (np_seed random_seed)))
          (List.concat chunks), st') /\
    stdout st' =
      stdout st ++
      [ComputingPValueAndFDR;
       if (n_permutations <? 1)%Z then SkippingPermutations
       else ByScoringAgainst n_permutations].
Proof.
  intros Ht Hp Hn Hall Hne Hnil.
  unfold match_permutation_scores.
  set (sta := mkState (heap st) (rng st)
                      (stdout st ++ [ComputingPValueAndFDR])).
  rewrite (bind_ok _ _ st tt sta) by reflexivity.
  assert (Hprint : exists stb,
             (if (n_permutations <? 1)%Z then print SkippingPermutations
              else print (ByScoringAgainst n_permutations)) sta
             = Ok (tt, stb) /\ heap stb = heap st /\
             stdout stb =
               stdout st ++
               [ComputingPValueAndFDR;
                if (n_permutations <? 1)%Z then SkippingPermutations
                else ByScoringAgainst n_permutations]).
  { destruct (n_permutations <? 1)%Z; eexists;
      (split; [reflexivity|split; [reflexivity|]]);
      unfold sta; cbn [stdout]; rewrite <- List.app_assoc; reflexivity. }
  destruct Hprint as (stb & Hprint & Hheap & Hout).
  rewrite (bind_ok _ _ sta tt stb Hprint).
  exists stb. split; [|exact Hout].
  rewrite (bind_ok _ _ stb _ stb
             (multiprocess_permute_spec target function f n_jobs
                n_permutations random_seed stb t split chunks
                ltac:(rewrite Hheap; exact Ht) Hp Hn
                ltac:(rewrite Hheap; exact Hall) Hne)).
  unfold lift. rewrite concatenate_map by exact Hnil. reflexivity.
Qed.



End Dispatch.

(** ** match on degenerate configurations *)

Section Degenerate.
Context `{Externals}.

Local Open Scope M_scope.

(** [match] does not return: the call of [compute_p_values_and_fdrs] in its
    last statement raises when the statements before it do not. *)
Lemma match_not_ok target features function n_jobs n_features n_samplings
    confidence n_permutations random_seed st :
  exists e,
    match_ target features function n_jobs n_features n_samplings confidence
           n_permutations random_seed st = Err e.
Proof.
  unfold match_.
  destruct (match_scores target features function n_jobs st)
    as [[split_scores st1]|e] eqn:E1;
    [rewrite (bind_ok _ _ _ _ _ E1)
    |exists e; apply bind_err, E1].
  match goal with
  | |- context [bind ?m _ st1] =>
      destruct (m st1) as [[intervals st2]|e] eqn:E2;
        [rewrite (bind_ok _ _ _ _ _ E2)
        |exists e; apply bind_err, E2]
  end.
  match goal with
  | |- context [bind ?m _ st2] =>
      destruct (m st2) as [[permutation_scores st3]|e] eqn:E3;
        [rewrite (bind_ok _ _ _ _ _ E3)
        |exists e; apply bind_err, E3]
  end.
  exists TypeError. apply bind_err. reflexivity.
Qed.

Lemma half_width_single confidence x :
  half_width confidence 1 [x] = fin 0.
Proof.
  unfold half_width. rewrite np_std_cons.
  replace (mean (List.map (fun y => ((y - mean [x]) * (y - mean [x]))%R) [x]))
    with 0%R by (unfold mean, Rsum; simpl; field).
  rewrite sqrt_0, sqrt_1. f_equal. field.
Qed.

Lemma half_widths_single confidence k column :
  List.map (half_width confidence 1) (columns_to_rows k [column]) =
  List.repeat (fin 0) k.
Proof.
  unfold columns_to_rows. rewrite List.map_map.
  generalize O as start. induction k as [|k IH]; intros start.
  - reflexivity.
  - cbn [List.seq List.map List.repeat]. rewrite half_width_single, IH.
    reflexivity.
Qed.

Lemma take_rows_spec features indices st rows :
  heap st !! features = Some (Arr2 rows) ->
  Forall (fun i => (i < List.length rows)%nat) indices ->
  let l := fresh (dom (heap st)) in
  take_rows features indices st =
  Ok (l, set_heap (<[ l := Arr2 (gather [] rows indices) ]> (heap st)) st).
Proof.
  intros Hf Hidx l. unfold take_rows.
  rewrite (bind_ok _ _ st rows st) by (unfold load2; rewrite Hf; reflexivity).
  rewrite (bind_ok _ _ st (gather [] rows indices) st).
  2:{ unfold lift. rewrite (take_indices_ok []) by exact Hidx.
      reflexivity. }
  reflexivity.
Qed.

Lemma gather_shape (rows : list (list R)) (indices : list nat) (m : nat) :
  Forall (fun row => List.length row = m) rows ->
  Forall (fun i => (i < List.length rows)%nat) indices ->
  Forall (fun row => List.length row = m) (gather [] rows indices).
Proof.
  intros Hrows Hidx. unfold gather. apply List.Forall_map.
  eapply List.Forall_impl; [|exact Hidx].
  intros i Hi. cbv beta.
  apply (proj1 (List.Forall_forall _ rows) Hrows).
  apply List.nth_In, Hi.
Qed.

(** With [n_samplings = 1] the line "Skipping because n_samplings < 2." is
    printed, and [compute_confidence_interval] is called all the same: each
    selected feature gets the interval 0. *)
Lemma match_confidence_intervals_single target features function scores
    n_features confidence random_seed st t rows :
  heap st !! target = Some (Arr1 t) ->
  heap st !! features = Some (Arr2 rows) ->
  t <> [] ->
  Forall (fun row => List.length row = List.length t) rows ->
  let indices := get_top_and_bottom_indices scores n_features in
  indices <> [] ->
  Forall (fun i => (i < List.length rows)%nat) indices ->
  exists st',
    match_confidence_intervals target features function scores n_features 1
                               confidence random_seed st =
    Ok (assign_at indices (List.repeat (fin 0) (List.length indices))
                  (List.repeat nan (List.length scores)), st') /\
    List.In SkippingSamplings (stdout st') /\
    heap st ⊆ heap st'.
Proof.
  intros Ht Hf Htne Hshape indices Hine Hidx.
  unfold match_confidence_intervals. fold indices.
  set (sta := mkState (heap st) (rng st)
                      (stdout st ++ [ComputingCI confidence])).
  rewrite (bind_ok _ _ st tt sta) by reflexivity.
  rewrite (bind_ok _ _ sta t sta)
    by (unfold load1, sta; cbn [heap]; rewrite Ht; reflexivity).
  change (1 <? 2)%Z with true. cbv iota.
  set (stb := mkState (heap st) (rng st)
                      ((stdout st ++ [ComputingCI confidence])
                       ++ [SkippingSamplings])).
  rewrite (bind_ok _ _ sta tt stb) by reflexivity.
  set (l := fresh (dom (heap stb))).
  set (selected := gather [] rows indices).
  set (stc := set_heap (<[ l := Arr2 selected ]> (heap stb)) stb).
  assert (Hfresh : heap stb !! l = None)
    by (apply not_elem_of_dom, is_fresh).
  rewrite (bind_ok _ _ stb l stc)
    by (apply (take_rows_spec features indices stb rows Hf Hidx)).
  assert (Hsel : selected <> []).
  { unfold selected, gather. destruct indices; [congruence|discriminate]. }
  assert (Htc : heap stc !! target = Some (Arr1 t)).
  { unfold stc. cbn [heap set_heap].
    rewrite lookup_insert_ne; [exact Ht|]. unfold stb in Hfresh.
    cbn [heap] in Hfresh. congruence. }
  assert (Hlc : heap stc !! l = Some (Arr2 selected))
    by (unfold stc; cbn [heap set_heap]; apply lookup_insert_eq).
  pose proof (compute_confidence_interval_spec target l function 1 confidence
                random_seed stc t selected Htc Hlc Htne Hsel
                (gather_shape rows indices _ Hshape Hidx) ltac:(lia)) as Hci.
  cbv zeta in Hci. change (Z.to_nat 1) with 1%nat in Hci.
  cbn [bootstrap_draws List.map] in Hci.
  rewrite half_widths_single in Hci.
  rewrite (bind_ok _ _ _ _ _ Hci).
  eexists. split; [|split].
  - unfold ret. unfold selected, gather. rewrite List.length_map.
    reflexivity.
  - cbn [stdout set_rng stc set_heap stb].
    apply List.in_or_app. right. left. reflexivity.
  - cbn [heap set_rng stc set_heap stb].
    apply insert_subseteq. exact Hfresh.
Qed.

End Degenerate.

(** * Further properties *)

(** ** More on the empirical p-value *)

Lemma counts_cover (v : R) (l : list R) :
  (List.length l <= count_le_right v l + count_le_left l v)%nat.
Proof.
  unfold count_le_right, count_le_left.
  induction l as [|x l IH]; simpl; [lia|].
  destruct (Rleb v x) eqn:E1; destruct (Rleb x v) eqn:E2; simpl; try lia.
  exfalso.
  assert (H1 : ~ (v <= x)%R) by (intros H; apply Rleb_true in H; congruence).
  assert (H2 : ~ (x <= v)%R) by (intros H; apply Rleb_true in H; congruence).
  lra.
Qed.

Lemma floored_fraction_ge (c n : nat) :
  (INR c / INR (S n) <= floored_fraction c (S n))%R.
Proof.
  assert (Hn : (0 < INR (S n))%R) by (apply lt_0_INR; lia).
  assert (Hinv : (0 < / INR (S n))%R) by (apply Rinv_0_lt_compat, Hn).
  destruct c as [|c]; cbn [floored_fraction]; [|lra].
  change (INR 0) with 0%R. unfold Rdiv. lra.
Qed.

Lemma floored_fraction_mono (c1 c2 n : nat) :
  (c1 <= c2)%nat ->
  (floored_fraction c1 (S n) <= floored_fraction c2 (S n))%R.
Proof.
  intros Hc.
  assert (Hn : (0 < INR (S n))%R) by (apply lt_0_INR; lia).
  assert (Hinv : (0 < / INR (S n))%R) by (apply Rinv_0_lt_compat, Hn).
  destruct c1 as [|c1]; destruct c2 as [|c2]; cbn [floored_fraction];
    try lia; try lra.
  - assert (H1 : (1 <= INR (S c2))%R).
    { change 1%R with (INR 1). apply le_INR. lia. }
    unfold Rdiv. apply Rmult_le_compat_r; lra.
  - assert (H1 : (INR (S c1) <= INR (S c2))%R) by (apply le_INR, Hc).
    unfold Rdiv. apply Rmult_le_compat_r; lra.
Qed.

Lemma filter_length_mono {A} (f g : A -> bool) (l : list A) :
  (forall x, f x = true -> g x = true) ->
  (List.length (List.filter f l) <= List.length (List.filter g l))%nat.
Proof.
  intros Hfg. induction l as [|x l IH]; simpl; [lia|].
  destruct (f x) eqn:Ef.
  - rewrite (Hfg x Ef). simpl. lia.
  - destruct (g x); simpl; lia.
Qed.

Lemma filter_length_none {A} (f : A -> bool) (l : list A) :
  (forall x, List.In x l -> f x = false) ->
  List.length (List.filter f l) = O.
Proof.
  induction l as [|x l IH]; intros Hf; simpl; [reflexivity|].
  rewrite (Hf x (or_introl eq_refl)). apply IH.
  intros y Hy. apply Hf. right. exact Hy.
Qed.

Lemma filter_length_all {A} (f : A -> bool) (l : list A) :
  (forall x, List.In x l -> f x = true) ->
  List.length (List.filter f l) = List.length l.
Proof.
  induction l as [|x l IH]; intros Hf; simpl; [reflexivity|].
  rewrite (Hf x (or_introl eq_refl)). simpl. f_equal. apply IH.
  intros y Hy. apply Hf. right. exact Hy.
Qed.

Lemma floored_fraction_full (n : nat) :
  floored_fraction (S n) (S n) = 1%R.
Proof.
  cbn [floored_fraction].
  assert (Hn : (0 < INR (S n))%R) by (apply lt_0_INR; lia).
  unfold Rdiv. apply Rinv_r. lra.
Qed.

(** X1. On a null pool that is not empty the two one-sided p-values of a
    score add up to 1 at least: every null value is on one side of the
    score. *)
Theorem one_sided_p_values_cover (value : R) (random_values : list R) :
  random_values <> [] ->
  exists p_f p_r : R,
    compute_p_value value random_values true = fin p_f /\
    compute_p_value value random_values false = fin p_r /\
    (1 <= p_f + p_r)%R.
Proof.
  intros Hne.
  rewrite (compute_p_value_greater value random_values Hne).
  rewrite (compute_p_value_not_greater value random_values Hne).
  eexists. eexists. split; [reflexivity|]. split; [reflexivity|].
  destruct random_values as [|x l] eqn:E; [congruence|]. rewrite <- E.
  assert (Hlen : List.length random_values = S (List.length l))
    by (rewrite E; reflexivity).
  rewrite Hlen.
  pose proof (floored_fraction_ge (count_le_right value random_values)
                                  (List.length l)) as H1.
  pose proof (floored_fraction_ge (count_le_left random_values value)
                                  (List.length l)) as H2.
  pose proof (counts_cover value random_values) as Hc. rewrite Hlen in Hc.
  apply le_INR in Hc. rewrite plus_INR in Hc.
  assert (Hn : (0 < INR (S (List.length l)))%R) by (apply lt_0_INR; lia).
  assert (Hs : (1 <= (INR (count_le_right value random_values)
                      + INR (count_le_left random_values value))
                     / INR (S (List.length l)))%R).
  { apply Rmult_le_reg_r with (r := INR (S (List.length l))); [exact Hn|].
    unfold Rdiv. rewrite Rmult_assoc, Rinv_l by lra. lra. }
  unfold Rdiv in *. lra.
Qed.

(** X2. The p-value for [greater] does not grow with the score, and the
    p-value for not [greater] does not shrink with it. *)
Theorem compute_p_value_monotone (v1 v2 : R) (random_values : list R) :
  random_values <> [] -> (v1 <= v2)%R ->
  exists p1 p2 q1 q2 : R,
    compute_p_value v1 random_values true = fin p1 /\
    compute_p_value v2 random_values true = fin p2 /\
    compute_p_value v1 random_values false = fin q1 /\
    compute_p_value v2 random_values false = fin q2 /\
    (p2 <= p1)%R /\ (q1 <= q2)%R.
Proof.
  intros Hne Hv.
  rewrite !(compute_p_value_greater _ random_values Hne).
  rewrite !(compute_p_value_not_greater _ random_values Hne).
  do 4 eexists. do 4 (split; [reflexivity|]).
  destruct random_values as [|x l] eqn:E; [congruence|]. rewrite <- E.
  assert (Hlen : List.length random_values = S (List.length l))
    by (rewrite E; reflexivity).
  rewrite Hlen. split; apply floored_fraction_mono.
  - apply filter_length_mono. intros y Hy.
    apply Rleb_true in Hy. apply Rleb_true. lra.
  - apply filter_length_mono. intros y Hy.
    apply Rleb_true in Hy. apply Rleb_true. lra.
Qed.

(** X3. A score above every null value gets the floor [1 / |pool|] as its
    p-value for [greater] and 1 as its p-value for not [greater]; a score
    below every null value gets them the other way round. *)
Theorem compute_p_value_extreme (value : R) (random_values : list R) :
  random_values <> [] ->
  ((forall x, List.In x random_values -> (x < value)%R) ->
   compute_p_value value random_values true
     = fin (1 / INR (List.length random_values)) /\
   compute_p_value value random_values false = fin 1) /\
  ((forall x, List.In x random_values -> (value < x)%R) ->
   compute_p_value value random_values true = fin 1 /\
   compute_p_value value random_values false
     = fin (1 / INR (List.length random_values))).
Proof.
  intros Hne.
  rewrite (compute_p_value_greater value random_values Hne).
  rewrite (compute_p_value_not_greater value random_values Hne).
  destruct random_values as [|x0 l] eqn:E; [congruence|]. rewrite <- E in *.
  assert (Hlen : List.length random_values = S (List.length l))
    by (rewrite E; reflexivity).
  unfold count_le_right, count_le_left.
  split; intros Hall.
  - rewrite filter_length_none, filter_length_all.
    + rewrite Hlen, floored_fraction_full. split; reflexivity.
    + intros x Hx. apply Rleb_true. specialize (Hall x Hx). lra.
    + intros x Hx. specialize (Hall x Hx).
      destruct (Rleb value x) eqn:Eb; [|reflexivity].
      apply Rleb_true in Eb. lra.
  - rewrite filter_length_all, filter_length_none.
    + rewrite Hlen, floored_fraction_full. split; reflexivity.
    + intros x Hx. specialize (Hall x Hx).
      destruct (Rleb x value) eqn:Eb; [|reflexivity].
      apply Rleb_true in Eb. lra.
    + intros x Hx. apply Rleb_true. specialize (Hall x Hx). lra.
Qed.

(** X4. [compute_p_value] returns not-a-number exactly when the null pool is
    empty (the 0/0 of its first division, which the test [not p_value] lets
    through); it raises on no input. *)
Theorem compute_p_value_nan_iff (value : R) (random_values : list R)
    (greater : bool) :
  compute_p_value value random_values greater = nan <-> random_values = [].
Proof.
  split.
  - intros E. destruct random_values as [|x l]; [reflexivity|exfalso].
    destruct greater.
    + rewrite compute_p_value_greater in E by discriminate. discriminate.
    + rewrite compute_p_value_not_greater in E by discriminate. discriminate.
  - intros ->. destruct greater; reflexivity.
Qed.

(** X5. [compute_p_value] takes its direction under the name [greater]: a
    call with the score and the pool uses [greater = True], a call with the
    keyword [greater=False] computes the other side, and a call with the
    keyword [forward] (the name that line 182 uses) is rejected with a
    TypeError. *)
Theorem compute_p_value_keywords (value : R) (random_values : list R) :
  call py_compute_p_value [PyFloat (fin value); PyArray random_values] []
    = Ok (PyFloat (compute_p_value value random_values true)) /\
  call py_compute_p_value [PyFloat (fin value); PyArray random_values]
       [("greater", PyBool false)]
    = Ok (PyFloat (compute_p_value value random_values false)) /\
  call py_compute_p_value
       [PyFloat (fin value); PyArray random_values; PyBool false] []
    = Ok (PyFloat (compute_p_value value random_values false)) /\
  call py_compute_p_value [PyFloat (fin value); PyArray random_values]
       [("forward", PyBool false)]
    = Err TypeError /\
  call py_compute_p_value
       [PyFloat (fin value); PyArray random_values; PyBool false]
       [("greater", PyBool false)]
    = Err TypeError.
Proof. repeat split; reflexivity. Qed.

(** X23. On a null pool that is not empty, [compute_p_value] with
    [greater] returns the number of null values that the score is less than
    or equal to, divided by the size of the pool, and with not [greater] the
    number of null values that are less than or equal to the score, divided
    by the size of the pool; when the number is zero it returns
    [1 / |pool|]. *)
Theorem compute_p_value_one_sided (value : R) (random_values : list R) :
  random_values <> [] ->
  exists c_f c_r : nat,
    cardinality (fun x => (value <= x)%R) random_values c_f /\
    cardinality (fun x => (x <= value)%R) random_values c_r /\
    compute_p_value value random_values true
      = fin (if Nat.eqb c_f 0 then 1 / INR (List.length random_values)
             else INR c_f / INR (List.length random_values)) /\
    compute_p_value value random_values false
      = fin (if Nat.eqb c_r 0 then 1 / INR (List.length random_values)
             else INR c_r / INR (List.length random_values)).
Proof.
  intros Hne.
  exists (count_le_right value random_values),
         (count_le_left random_values value).
  split; [|split; [|split]].
  - apply cardinality_filter. intros x. apply Rleb_true.
  - apply cardinality_filter. intros x. apply Rleb_true.
  - rewrite (compute_p_value_greater value random_values Hne).
    destruct (count_le_right value random_values); reflexivity.
  - rewrite (compute_p_value_not_greater value random_values Hne).
    destruct (count_le_left random_values value); reflexivity.
Qed.

(** ** More on score, permute_and_score and compute_confidence_interval *)

Section Functions.
Context `{Externals}.

Local Open Scope M_scope.

Lemma map_rows_length func1d rows g :
  List.length (map_rows func1d rows g).1 = List.length rows.
Proof.
  revert g. induction rows as [|row rows IH]; intros g; simpl.
  - reflexivity.
  - rewrite IH. reflexivity.
Qed.

Lemma score_rows target features function st t rows :
  heap st !! target = Some (Arr1 t) ->
  heap st !! features = Some (Arr2 rows) ->
  rows <> [] ->
  score target features function st =
  Ok ((map_rows (fun feature => function t feature) rows (rng st)).1,
      set_rng (map_rows (fun feature => function t feature) rows (rng st)).2
              st).
Proof.
  intros Ht Hf Hrne. unfold score.
  rewrite (bind_ok _ _ st t st) by (unfold load1; rewrite Ht; reflexivity).
  rewrite (bind_ok _ _ st rows st) by (unfold load2; rewrite Hf; reflexivity).
  unfold apply_along_axis_rows. destruct rows; [congruence|reflexivity].
Qed.

(** X6. [score] returns one score per feature and changes neither an array
    nor the output; on a feature matrix without rows it raises a
    ValueError. *)
Theorem score_result (target features : loc) (function : scoring)
    (st : state) (t : list R) (rows : list (list R)) :
  heap st !! target = Some (Arr1 t) ->
  heap st !! features = Some (Arr2 rows) ->
  (rows <> [] ->
   exists scores st',
     score target features function st = Ok (scores, st') /\
     List.length scores = List.length rows /\
     heap st' = heap st /\ stdout st' = stdout st) /\
  (rows = [] -> score target features function st = Err ValueError).
Proof.
  intros Ht Hf. split.
  - intros Hrne. eexists. eexists. split; [|split; [|split]].
    + apply (score_rows target features function st t rows Ht Hf Hrne).
    + apply map_rows_length.
    + reflexivity.
    + reflexivity.
  - intros ->. apply (score_no_rows target features function st t Ht Hf).
Qed.

Lemma columns_to_rows_row_lengths k columns :
  Forall (fun row => List.length row = List.length columns)
         (columns_to_rows k columns).
Proof.
  unfold columns_to_rows. apply List.Forall_map.
  apply List.Forall_forall. intros j _. apply List.length_map.
Qed.

(** X7. [permute_and_score] returns an array of shape (n_features,
    n_permutations): one row per feature, one entry per permutation. *)
Theorem permute_and_score_shape (target features : loc) (function : scoring)
    (n_permutations random_seed : Z) (st : state)
    (t : list R) (rows : list (list R)) :
  heap st !! target = Some (Arr1 t) ->
  heap st !! features = Some (Arr2 rows) ->
  rows <> [] -> (0 <= n_permutations)%Z ->
  exists result st',
    permute_and_score target features function n_permutations random_seed st
      = Ok (result, st') /\
    List.length result = List.length rows /\
    Forall (fun row => List.length row = Z.to_nat n_permutations) result.
Proof.
  intros Ht Hf Hrne Hn. eexists. eexists. split; [|split].
  - apply (permute_and_score_spec target features function n_permutations
             random_seed st t rows Ht Hf Hrne Hn).
  - apply columns_to_rows_length.
  - eapply List.Forall_impl; [|apply columns_to_rows_row_lengths].
    intros row Hrow. cbv beta in Hrow.
    rewrite Hrow, List.length_map. apply permutation_draws_length.
Qed.

(** X8. [permute_and_score] raises a ValueError on a negative number of
    permutations, and on a feature matrix without rows when there is a
    permutation to score; with no permutation and no row it returns the
    empty array. *)
Theorem permute_and_score_errors (target features : loc) (function : scoring)
    (n_permutations random_seed : Z) (st : state)
    (t : list R) (rows : list (list R)) :
  heap st !! target = Some (Arr1 t) ->
  heap st !! features = Some (Arr2 rows) ->
  ((n_permutations < 0)%Z ->
   permute_and_score target features function n_permutations random_seed st
     = Err ValueError) /\
  (rows = [] -> (0 < n_permutations)%Z ->
   permute_and_score target features function n_permutations random_seed st
     = Err ValueError) /\
  (rows = [] -> n_permutations = 0%Z ->
   exists st',
     permute_and_score target features function n_permutations random_seed st
       = Ok ([], st')).
Proof.
  intros Ht Hf.
  assert (Hfresh : heap st !! fresh (dom (heap st)) = None)
    by (apply not_elem_of_dom, is_fresh).
  assert (Hload : load2 features st = Ok (rows, st))
    by (unfold load2; rewrite Hf; reflexivity).
  assert (Harr : array target st =
                 Ok (fresh (dom (heap st)),
                     set_heap (<[ fresh (dom (heap st)) := Arr1 t ]> (heap st))
                              st)).
  { unfold array. rewrite (bind_ok _ _ st t st)
      by (unfold load1; rewrite Ht; reflexivity). reflexivity. }
  split; [|split].
  - intros Hn. unfold permute_and_score.
    rewrite (bind_ok _ _ _ _ _ Hload).
    destruct (n_permutations <? 0)%Z eqn:E; [reflexivity|].
    apply Z.ltb_ge in E. lia.
  - intros -> Hn. unfold permute_and_score.
    rewrite (bind_ok _ _ _ _ _ Hload).
    destruct (n_permutations <? 0)%Z eqn:E; [reflexivity|].
    rewrite (bind_ok _ _ _ _ _ Harr).
    rewrite (bind_ok _ _ _ tt
               (set_rng (np_seed random_seed)
                  (set_heap (<[ fresh (dom (heap st)) := Arr1 t ]> (heap st))
                            st))) by reflexivity.
    apply bind_err.
    destruct (Z.to_nat n_permutations) as [|n] eqn:En; [lia|].
    cbn [for_range]. apply bind_err.
    apply (permutation_round_no_rows _ _ _ _ t).
    + cbn [heap set_rng set_heap]. apply lookup_insert_eq.
    + cbn [heap set_rng set_heap].
      rewrite lookup_insert_ne by congruence. exact Hf.
  - intros -> ->. eexists. unfold permute_and_score.
    rewrite (bind_ok _ _ _ _ _ Hload). cbn [Z.ltb Z.compare].
    rewrite (bind_ok _ _ _ _ _ Harr). reflexivity.
Qed.

(** X9. [permute_and_score] seeds the generator itself: from two states that
    hold the same target and features, whatever their generator states and
    outputs are, it returns the same scores and leaves the generator in the
    same state. *)
Theorem permute_and_score_reseeds (target features : loc)
    (function : scoring) (n_permutations random_seed : Z) (st1 st2 : state)
    (t : list R) (rows : list (list R)) :
  heap st1 !! target = Some (Arr1 t) ->
  heap st1 !! features = Some (Arr2 rows) ->
  heap st2 !! target = Some (Arr1 t) ->
  heap st2 !! features = Some (Arr2 rows) ->
  rows <> [] -> (0 <= n_permutations)%Z ->
  exists result s1 s2,
    permute_and_score target features function n_permutations random_seed
                      st1 = Ok (result, s1) /\
    permute_and_score target features function n_permutations random_seed
                      st2 = Ok (result, s2) /\
    rng s1 = rng s2.
Proof.
  intros Ht1 Hf1 Ht2 Hf2 Hrne Hn. eexists. eexists. eexists.
  split; [|split].
  - apply (permute_and_score_spec target features function n_permutations
             random_seed st1 t rows Ht1 Hf1 Hrne Hn).
  - apply (permute_and_score_spec target features function n_permutations
             random_seed st2 t rows Ht2 Hf2 Hrne Hn).
  - reflexivity.
Qed.

(** X10. [compute_confidence_interval] seeds the generator itself: from two
    states that hold the same target and features it returns the same
    intervals and leaves the generator in the same state. *)
Theorem compute_confidence_interval_reseeds (target features : loc)
    (function : scoring) (n_samplings : Z) (confidence : R)
    (random_seed : Z) (st1 st2 : state) (t : list R) (rows : list (list R)) :
  heap st1 !! target = Some (Arr1 t) ->
  heap st1 !! features = Some (Arr2 rows) ->
  heap st2 !! target = Some (Arr1 t) ->
  heap st2 !! features = Some (Arr2 rows) ->
  t <> [] -> rows <> [] ->
  Forall (fun row => List.length row = List.length t) rows ->
  (0 <= n_samplings)%Z ->
  exists intervals s1 s2,
    compute_confidence_interval target features function n_samplings
      confidence random_seed st1 = Ok (intervals, s1) /\
    compute_confidence_interval target features function n_samplings
      confidence random_seed st2 = Ok (intervals, s2) /\
    rng s1 = rng s2.
Proof.
  intros Ht1 Hf1 Ht2 Hf2 Htne Hrne Hshape Hn. eexists. eexists. eexists.
  split; [|split].
  - apply (compute_confidence_interval_spec target features function
             n_samplings confidence random_seed st1 t rows
             Ht1 Hf1 Htne Hrne Hshape Hn).
  - apply (compute_confidence_interval_spec target features function
             n_samplings confidence random_seed st2 t rows
             Ht2 Hf2 Htne Hrne Hshape Hn).
  - reflexivity.
Qed.

Lemma half_widths_forall (P : float64 -> Prop) confidence n_samplings k
    columns :
  (forall row, List.length row = List.length columns ->
               P (half_width confidence n_samplings row)) ->
  Forall P (List.map (half_width confidence n_samplings)
                     (columns_to_rows k columns)).
Proof.
  intros HP. apply List.Forall_map.
  eapply List.Forall_impl; [|apply columns_to_rows_row_lengths].
  intros row Hrow. apply HP, Hrow.
Qed.

Lemma half_widths_no_round confidence n_samplings k :
  List.map (half_width confidence n_samplings) (columns_to_rows k []) =
  List.repeat nan k.
Proof.
  unfold columns_to_rows. rewrite List.map_map.
  generalize O as start. induction k as [|k IH]; intros start.
  - reflexivity.
  - cbn [List.seq List.map List.repeat]. rewrite IH. reflexivity.
Qed.

(** X11. For a confidence strictly between 0 and 1,
    [compute_confidence_interval] raises a ValueError on a negative number
    of samplings; with no sampling it returns not-a-number for every
    feature; with one sampling or more it returns a number for every
    feature. *)
Theorem compute_confidence_interval_defined (target features : loc)
    (function : scoring) (n_samplings : Z) (confidence : R)
    (random_seed : Z) (st : state) (t : list R) (rows : list (list R)) :
  heap st !! target = Some (Arr1 t) ->
  heap st !! features = Some (Arr2 rows) ->
  t <> [] -> rows <> [] ->
  Forall (fun row => List.length row = List.length t) rows ->
  (0 < confidence < 1)%R ->
  ((n_samplings < 0)%Z ->
   compute_confidence_interval target features function n_samplings
     confidence random_seed st = Err ValueError) /\
  (n_samplings = 0%Z ->
   exists st',
     compute_confidence_interval target features function n_samplings
       confidence random_seed st
     = Ok (List.repeat nan (List.length rows), st')) /\
  ((1 <= n_samplings)%Z ->
   exists intervals st',
     compute_confidence_interval target features function n_samplings
       confidence random_seed st = Ok (intervals, st') /\
     List.length intervals = List.length rows /\
     Forall (fun x => exists w : R, x = fin w) intervals).
Proof.
  intros Ht Hf Htne Hrne Hshape _. split; [|split].
  - intros Hn. unfold compute_confidence_interval.
    rewrite (bind_ok _ _ st rows st)
      by (unfold load2; rewrite Hf; reflexivity).
    destruct (n_samplings <? 0)%Z eqn:E; [reflexivity|].
    apply Z.ltb_ge in E. lia.
  - intros ->. eexists.
    rewrite (compute_confidence_interval_spec target features function 0
               confidence random_seed st t rows
               Ht Hf Htne Hrne Hshape ltac:(lia)).
    change (Z.to_nat 0) with O. cbn [bootstrap_draws List.map].
    rewrite half_widths_no_round. reflexivity.
  - intros Hn. eexists. eexists. split; [|split].
    + apply (compute_confidence_interval_spec target features function
               n_samplings confidence random_seed st t rows
               Ht Hf Htne Hrne Hshape ltac:(lia)).
    + rewrite List.length_map. apply columns_to_rows_length.
    + apply half_widths_forall. intros row Hrow.
      rewrite List.length_map, bootstrap_draws_length in Hrow.
      destruct row as [|x row]; [cbn in Hrow; lia|].
      unfold half_width. rewrite np_std_cons. eexists. reflexivity.
Qed.

(** X12. For a confidence strictly between 0 and 1 and one sampling or
    more, every interval that [compute_confidence_interval] returns has the
    sign of [norm.ppf(confidence)]: it is not negative when the quantile is
    not negative, and not positive when the quantile is not positive. *)
Theorem compute_confidence_interval_sign (target features : loc)
    (function : scoring) (n_samplings : Z) (confidence : R)
    (random_seed : Z) (st : state) (t : list R) (rows : list (list R)) :
  heap st !! target = Some (Arr1 t) ->
  heap st !! features = Some (Arr2 rows) ->
  t <> [] -> rows <> [] ->
  Forall (fun row => List.length row = List.length t) rows ->
  (0 < confidence < 1)%R ->
  (1 <= n_samplings)%Z ->
  exists intervals st',
    compute_confidence_interval target features function n_samplings
      confidence random_seed st = Ok (intervals, st') /\
    Forall (fun x => exists w : R,
              x = fin w /\
              ((0 <= norm_ppf confidence)%R -> (0 <= w)%R) /\
              ((norm_ppf confidence <= 0)%R -> (w <= 0)%R)) intervals.
Proof.
  intros Ht Hf Htne Hrne Hshape _ Hn. eexists. eexists. split.
  - apply (compute_confidence_interval_spec target features function
             n_samplings confidence random_seed st t rows
             Ht Hf Htne Hrne Hshape ltac:(lia)).
  - apply half_widths_forall. intros row Hrow.
    rewrite List.length_map, bootstrap_draws_length in Hrow.
    destruct row as [|x row]; [cbn in Hrow; lia|].
    unfold half_width. rewrite np_std_cons. eexists. split; [reflexivity|].
    set (s := sqrt _).
    assert (Hs : (0 <= s)%R) by apply sqrt_pos.
    assert (Hq : (0 < sqrt (IZR n_samplings))%R).
    { apply sqrt_lt_R0. apply IZR_lt. lia. }
    assert (Hi : (0 < / sqrt (IZR n_samplings))%R)
      by (apply Rinv_0_lt_compat, Hq).
    unfold Rdiv. split; intros Hz.
    + apply Rmult_le_pos; [apply Rmult_le_pos; assumption|lra].
    + assert (Hm : (norm_ppf confidence * s <= 0)%R).
      { rewrite <- (Rmult_0_l s). apply Rmult_le_compat_r; assumption. }
      rewrite <- (Rmult_0_l (/ sqrt (IZR n_samplings))).
      apply Rmult_le_compat_r; lra.
Qed.

(** X13. [compute_confidence_interval] changes no array: every array that
    exists when it is called is the same when it returns. *)
Theorem compute_confidence_interval_frame (target features : loc)
    (function : scoring) (n_samplings : Z) (confidence : R)
    (random_seed : Z) (st st' : state) (intervals : list float64) :
  compute_confidence_interval target features function n_samplings
    confidence random_seed st = Ok (intervals, st') ->
  forall l a, heap st !! l = Some a -> heap st' !! l = Some a.
Proof.
  intros Hrun l a Hl.
  eapply lookup_weaken; [exact Hl|].
  exact (extending_compute_confidence_interval _ _ _ _ _ _ _ _ _ Hrun).
Qed.

Lemma bootstrap_round_no_rows target features function st t :
  heap st !! target = Some (Arr1 t) ->
  heap st !! features = Some (Arr2 []) ->
  bootstrap_round target features function st = Err ValueError.
Proof.
  intros Ht Hf. unfold bootstrap_round.
  rewrite (bind_ok _ _ st t st) by (unfold load1; rewrite Ht; reflexivity).
  rewrite (bind_ok _ _ st [] st) by (unfold load2; rewrite Hf; reflexivity).
  destruct t as [|x t']; [reflexivity|].
  set (t := x :: t') in *.
  set (d := np_choice (List.length t) (sample_size (List.length t)) (rng st)).
  assert (Hpos : (0 < List.length t)%nat) by (cbn; lia).
  rewrite (bind_ok _ _ st d.1 (set_rng d.2 st)) by reflexivity.
  rewrite (bind_ok _ _ _ (gather 0%R t d.1) (set_rng d.2 st)).
  2:{ unfold lift. rewrite (take_indices_ok 0%R); [reflexivity|].
      apply np_choice_range, Hpos. }
  reflexivity.
Qed.

(** X14. On a feature matrix without rows [compute_confidence_interval]
    raises a ValueError, for every number of samplings. *)
Theorem compute_confidence_interval_no_features (target features : loc)
    (function : scoring) (n_samplings : Z) (confidence : R)
    (random_seed : Z) (st : state) (t : list R) :
  heap st !! target = Some (Arr1 t) ->
  heap st !! features = Some (Arr2 []) ->
  compute_confidence_interval target features function n_samplings
    confidence random_seed st = Err ValueError.
Proof.
  intros Ht Hf. unfold compute_confidence_interval.
  rewrite (bind_ok _ _ st [] st) by (unfold load2; rewrite Hf; reflexivity).
  destruct (n_samplings <? 0)%Z; [reflexivity|].
  rewrite (bind_ok _ _ st tt (set_rng (np_seed random_seed) st))
    by reflexivity.
  destruct (Z.to_nat n_samplings) as [|n].
  - reflexivity.
  - apply bind_err. cbn [for_range]. apply bind_err.
    apply (bootstrap_round_no_rows _ _ _ _ t); assumption.
Qed.


(** X21. For a confidence strictly between 0 and 1 and a single sampling,
    every interval that [compute_confidence_interval] returns is 0: the
    standard deviation of one score is 0. *)
Theorem compute_confidence_interval_single_sampling (target features : loc)
    (function : scoring) (confidence : R) (random_seed : Z) (st : state)
    (t : list R) (rows : list (list R)) :
  heap st !! target = Some (Arr1 t) ->
  heap st !! features = Some (Arr2 rows) ->
  t <> [] -> rows <> [] ->
  Forall (fun row => List.length row = List.length t) rows ->
  (0 < confidence < 1)%R ->
  exists st',
    compute_confidence_interval target features function 1 confidence
                                random_seed st
    = Ok (List.repeat (fin 0) (List.length rows), st').
Proof.
  intros Ht Hf Htne Hrne Hshape _. eexists.
  rewrite (compute_confidence_interval_spec target features function 1
             confidence random_seed st t rows
             Ht Hf Htne Hrne Hshape ltac:(lia)).
  change (Z.to_nat 1) with 1%nat. cbn [bootstrap_draws List.map].
  rewrite half_widths_single. reflexivity.
Qed.


End Functions.

(** ** More on match *)

Lemma sample_size_le (n m : nat) :
  (n <= m)%nat -> (sample_size n <= sample_size m)%nat.
Proof.
  intros Hnm. unfold sample_size. apply Z2Nat.inj_le.
  - apply Z.div_pos; lia.
  - apply Z.div_pos; lia.
  - apply Z.div_le_mono; lia.
Qed.

(** X19. The bootstrap sample size [ceil(0.632 * n)] is at most [n], does
    not shrink when [n] grows, is zero only for [n = 0], and is less than 3,
    the threshold of line 136, exactly when there are 3 samples or fewer. *)
Theorem sample_size_bounds (n : nat) :
  (sample_size n <= n)%nat /\
  (forall m, (n <= m)%nat -> (sample_size n <= sample_size m)%nat) /\
  (sample_size n = O <-> n = O) /\
  ((sample_size n < 3)%nat <-> (n <= 3)%nat).
Proof.
  split; [|split; [|split]].
  - unfold sample_size.
    assert (H : ((632 * Z.of_nat n + 999) / 1000 <= Z.of_nat n)%Z).
    { apply Z.lt_succ_r. apply Z.div_lt_upper_bound; lia. }
    lia.
  - intros m. apply sample_size_le.
  - split.
    + intros E. destruct n as [|n]; [reflexivity|exfalso].
      pose proof (sample_size_le 1 (S n) ltac:(lia)) as H1.
      change (sample_size 1) with 1%nat in H1. lia.
    + intros ->. reflexivity.
  - split.
    + intros Hs. destruct (Nat.le_gt_cases n 3) as [Hle|Hgt]; [exact Hle|].
      pose proof (sample_size_le 4 n ltac:(lia)) as H4.
      change (sample_size 4) with 3%nat in H4. lia.
    + intros Hle. pose proof (sample_size_le n 3 Hle) as H3.
      change (sample_size 3) with 2%nat in H3. lia.
Qed.

Lemma split_by_lengths {A} (sizes : list nat) (l : list A) :
  (List.list_sum sizes <= List.length l)%nat ->
  List.map (@List.length A) (split_by sizes l) = sizes.
Proof.
  revert l. induction sizes as [|n sizes IH]; intros l Hsum; [reflexivity|].
  change (List.list_sum (n :: sizes))
    with (n + List.list_sum sizes)%nat in Hsum.
  cbn [split_by List.map]. f_equal.
  - rewrite List.length_firstn. lia.
  - apply IH. rewrite List.length_skipn. lia.
Qed.

Lemma section_sizes_near (total sections : nat) :
  Forall (fun n => n = (total / sections)%nat \/
                   n = (total / sections + 1)%nat)
         (section_sizes total sections).
Proof.
  unfold section_sizes. apply List.Forall_app.
  split; apply List.Forall_forall; intros n Hn;
    apply List.repeat_spec in Hn; [right|left]; exact Hn.
Qed.

Lemma nth_error_insert_other {A} (l : list A) (i j : nat) (v : A) :
  i <> j -> List.nth_error (<[ i := v ]> l) j = List.nth_error l j.
Proof.
  revert i j. induction l as [|x l IH]; intros i j Hij.
  - destruct i; reflexivity.
  - destruct i as [|i]; destruct j as [|j]; try congruence; try reflexivity.
    cbn. apply IH. congruence.
Qed.

Lemma assign_at_length {A} (indices : list nat) (values x : list A) :
  List.length (assign_at indices values x) = List.length x.
Proof.
  revert values x. induction indices as [|i indices IH]; intros values x.
  - reflexivity.
  - destruct values as [|v values]; [reflexivity|].
    cbn [assign_at]. rewrite IH. apply length_insert.
Qed.

Lemma assign_at_other {A} (indices : list nat) (values x : list A) (j : nat) :
  ~ List.In j indices ->
  List.nth_error (assign_at indices values x) j = List.nth_error x j.
Proof.
  revert values x. induction indices as [|i indices IH]; intros values x Hj.
  - reflexivity.
  - destruct values as [|v values]; [reflexivity|].
    cbn [assign_at]. rewrite IH by (intros Hin; apply Hj; right; exact Hin).
    apply nth_error_insert_other. intros ->. apply Hj. left. reflexivity.
Qed.

Lemma nth_error_repeat {A} (a : A) (k j : nat) :
  (j < k)%nat -> List.nth_error (List.repeat a k) j = Some a.
Proof.
  revert j. induction k as [|k IH]; intros j Hj; [lia|].
  destruct j as [|j]; [reflexivity|]. cbn. apply IH. lia.
Qed.

Lemma concat_rows_length {A B} (h : A -> B -> R) (l : list A) (ds : list B) :
  List.length (List.concat (List.map (fun x => List.map (h x) ds) l)) =
  (List.length l * List.length ds)%nat.
Proof.
  induction l as [|x l IH]; [reflexivity|].
  cbn [List.map List.concat List.length].
  rewrite List.length_app, List.length_map, IH. lia.
Qed.

Section Phases.
Context `{Externals}.

Local Open Scope M_scope.

(** X16. [array_split(features, n_jobs)] in [match], for one job or more:
    it makes [n_jobs] new arrays of consecutive rows, which together are the
    rows of the feature matrix in their order and whose sizes are the
    quotient of the number of rows by [n_jobs] or one more; the arrays that
    exist before are unchanged.  With no job or a negative number of jobs it
    raises a ValueError. *)
Theorem array_split_sections (features : loc) (n_jobs : Z) (st : state)
    (rows : list (list R)) :
  heap st !! features = Some (Arr2 rows) ->
  ((n_jobs <= 0)%Z -> array_split features n_jobs st = Err ValueError) /\
  ((1 <= n_jobs)%Z ->
   exists ls st',
     array_split features n_jobs st = Ok (ls, st') /\
     List.length ls = Z.to_nat n_jobs /\
     Forall2 (fun l chunk => heap st' !! l = Some (Arr2 chunk))
             ls (sections_of rows n_jobs) /\
     List.concat (sections_of rows n_jobs) = rows /\
     Forall (fun chunk =>
               List.length chunk
                 = (List.length rows / Z.to_nat n_jobs)%nat \/
               List.length chunk
                 = (List.length rows / Z.to_nat n_jobs + 1)%nat)
            (sections_of rows n_jobs) /\
     forall l a, heap st !! l = Some a -> heap st' !! l = Some a).
Proof.
  intros Hf.
  assert (Hload : load2 features st = Ok (rows, st))
    by (unfold load2; rewrite Hf; reflexivity).
  split.
  - intros Hn. unfold array_split. rewrite (bind_ok _ _ _ _ _ Hload).
    destruct (n_jobs <=? 0)%Z eqn:E; [reflexivity|].
    apply Z.leb_gt in E. lia.
  - intros Hn.
    assert (Hk : (0 < Z.to_nat n_jobs)%nat) by lia.
    pose proof (section_sizes_sum (List.length rows) (Z.to_nat n_jobs) Hk)
      as Hsum.
    destruct (mapM_alloc_spec (sections_of rows n_jobs) st)
      as (ls & st' & Hrun & Hall & Hsub & _ & _).
    exists ls, st'. split; [|split; [|split; [|split; [|split]]]].
    + unfold array_split. rewrite (bind_ok _ _ _ _ _ Hload).
      destruct (n_jobs <=? 0)%Z eqn:E; [apply Z.leb_le in E; lia|].
      exact Hrun.
    + rewrite (Forall2_length _ _ _ Hall). unfold sections_of.
      rewrite split_by_length. apply section_sizes_length, Hk.
    + exact Hall.
    + apply split_by_concat, Hsum.
    + unfold sections_of.
      assert (Hnear :
                Forall (fun n => n = (List.length rows / Z.to_nat n_jobs)%nat
                                 \/ n = (List.length rows / Z.to_nat n_jobs
                                         + 1)%nat)
                       (List.map (@List.length _)
                          (split_by (section_sizes (List.length rows)
                                                   (Z.to_nat n_jobs)) rows))).
      { rewrite split_by_lengths by lia. apply section_sizes_near. }
      apply List.Forall_map in Hnear. exact Hnear.
    + intros l a Hl. eapply lookup_weaken; [exact Hl|exact Hsub].
Qed.

Lemma zero_size_section {A} (sizes : list nat) (l : list A) :
  List.In O sizes -> List.In [] (split_by sizes l).
Proof.
  revert l. induction sizes as [|n sizes IH]; intros l Hin; [destruct Hin|].
  cbn [split_by]. destruct Hin as [->|Hin].
  - left. reflexivity.
  - right. apply IH, Hin.
Qed.

Lemma multiprocess_score_empty_section target function n_jobs st t ls chunks :
  heap st !! target = Some (Arr1 t) ->
  Forall2 (fun l chunk => heap st !! l = Some (Arr2 chunk)) ls chunks ->
  List.In [] chunks ->
  multiprocess multiprocess_score
    (List.map (fun fs => (target, fs, function)) ls) n_jobs st
  = Err ValueError.
Proof.
  intros Ht Hall Hin. unfold multiprocess.
  match goal with
  | |- match ?m with _ => _ end = _ => assert (E : m = Err ValueError)
  end.
  { induction Hall as [|l chunk ls chunks Hl _ IH]; [destruct Hin|].
    cbn [List.map mapM_res]. unfold multiprocess_score at 1.
    destruct chunk as [|row chunk].
    - rewrite (score_no_rows target l function st t Ht Hl). reflexivity.
    - rewrite (score_rows target l function st t (row :: chunk) Ht Hl
                 ltac:(discriminate)).
      cbn [rbind fst]. rewrite IH; [reflexivity|].
      destruct Hin as [Hin|Hin]; [discriminate|exact Hin]. }
  rewrite E. reflexivity.
Qed.

(** X17. [match] needs a number of jobs between 1 and the number of
    features: with fewer jobs [array_split] raises a ValueError, with more
    jobs a section of the features has no row and scoring it raises a
    ValueError, whatever the scoring function is. *)
Theorem match_rejects_n_jobs (target features : loc) (function : scoring)
    (n_jobs : Z) (n_features : option R) (n_samplings : Z) (confidence : R)
    (n_permutations random_seed : Z) (st : state)
    (t : list R) (rows : list (list R)) :
  heap st !! target = Some (Arr1 t) ->
  heap st !! features = Some (Arr2 rows) ->
  (n_jobs <= 0 \/ Z.of_nat (List.length rows) < n_jobs)%Z ->
  match_scores target features function n_jobs st = Err ValueError /\
  match_ target features function n_jobs n_features n_samplings confidence
         n_permutations random_seed st = Err ValueError.
Proof.
  intros Ht Hf Hn.
  assert (Hscores : match_scores target features function n_jobs st
                    = Err ValueError).
  { unfold match_scores.
    set (sta := mkState (heap st) (rng st)
                        (stdout st ++ [UsingProcesses n_jobs])).
    rewrite (bind_ok _ _ st tt sta) by reflexivity.
    assert (Hfa : heap sta !! features = Some (Arr2 rows)) by exact Hf.
    destruct (Z.le_gt_cases n_jobs 0) as [Hle|Hgt].
    - apply bind_err.
      exact (proj1 (array_split_sections features n_jobs sta rows Hfa) Hle).
    - destruct Hn as [Hn|Hn]; [lia|].
      destruct (proj2 (array_split_sections features n_jobs sta rows Hfa)
                  ltac:(lia))
        as (ls & stb & Hrun & _ & Hall & _ & _ & Hkeep).
      rewrite (bind_ok _ _ _ _ _ Hrun).
      set (stc := mkState (heap stb) (rng stb)
                          (stdout stb ++ [ComputingScores])).
      rewrite (bind_ok _ _ stb tt stc) by reflexivity.
      apply bind_err.
      apply (multiprocess_score_empty_section target function n_jobs stc t
               ls (sections_of rows n_jobs)).
      + apply Hkeep. exact Ht.
      + exact Hall.
      + unfold sections_of. apply zero_size_section.
        unfold section_sizes.
        rewrite Nat.div_small, Nat.mod_small by lia.
        apply List.in_or_app. right.
        destruct (Z.to_nat n_jobs - List.length rows)%nat as [|m] eqn:Em;
          [lia|]. left. reflexivity. }
  split; [exact Hscores|].
  unfold match_. apply bind_err. exact Hscores.
Qed.

(** X18. When the CI phase of [match] returns, the CI column has one entry
    per feature, and the entry of every feature that
    [get_top_and_bottom_indices] does not select is not-a-number. *)
Theorem unselected_features_have_no_interval (target features : loc)
    (function : scoring) (scores : list R) (n_features : option R)
    (n_samplings : Z) (confidence : R) (random_seed : Z)
    (st st' : state) (intervals : list float64) :
  match_confidence_intervals target features function scores n_features
    n_samplings confidence random_seed st = Ok (intervals, st') ->
  List.length intervals = List.length scores /\
  forall j, (j < List.length scores)%nat ->
    ~ List.In j (get_top_and_bottom_indices scores n_features) ->
    List.nth_error intervals j = Some nan.
Proof.
  intros Hrun. unfold match_confidence_intervals in Hrun.
  apply bind_inv in Hrun as (u1 & s1 & _ & Hrun).
  apply bind_inv in Hrun as (t & s2 & _ & Hrun).
  apply bind_inv in Hrun as (u2 & s3 & _ & Hrun).
  apply bind_inv in Hrun as (selected & s4 & _ & Hrun).
  apply bind_inv in Hrun as (computed & s5 & _ & Hrun).
  unfold ret in Hrun. injection Hrun as <- _.
  split.
  - rewrite assign_at_length. apply List.repeat_length.
  - intros j Hj Hnot. rewrite assign_at_other by exact Hnot.
    apply nth_error_repeat, Hj.
Qed.

(** X20. For a scoring function of its two arguments and a number of jobs
    between 1 and the number of features, the matrix of permutation scores
    of [match] has one row per feature, and the pool that it is flattened to
    has n_features * n_permutations entries. *)
Theorem null_pool_size (target features : loc) (function : scoring)
    (f : list R -> list R -> R) (n_jobs n_permutations random_seed : Z)
    (st : state) (t : list R) (rows : list (list R)) :
  heap st !! target = Some (Arr1 t) ->
  heap st !! features = Some (Arr2 rows) ->
  pure_scoring function f ->
  (1 <= n_jobs <= Z.of_nat (List.length rows))%Z ->
  (0 <= n_permutations)%Z ->
  exists split scores st1,
    match_scores target features function n_jobs st
      = Ok ((split, scores), st1) /\
    List.length scores = List.length rows /\
    forall s, heap st1 ⊆ heap s ->
      exists null_scores s',
        match_permutation_scores target split function n_jobs
          n_permutations random_seed s = Ok (null_scores, s') /\
        List.length null_scores = List.length rows /\
        List.length (flatten null_scores) =
          (List.length rows * Z.to_nat n_permutations)%nat.
Proof.
  intros Ht Hf Hp Hk Hn.
  destruct (match_scores_spec target features function f n_jobs st t rows
              Ht Hf Hp Hk) as (split & st1 & Hrun & Hsub & Hall).
  destruct (sections_of_facts rows n_jobs Hk) as (Hcat & Hne & Hnil).
  exists split, (List.map (f t) rows), st1.
  split; [exact Hrun|]. split; [apply List.length_map|].
  intros s Hs.
  assert (Hall' : Forall2 (fun l chunk => heap s !! l = Some (Arr2 chunk))
                          split (sections_of rows n_jobs)).
  { clear - Hall Hs. induction Hall; constructor; [|assumption].
    eapply lookup_weaken; eassumption. }
  destruct (match_permutation_scores_spec target function f n_jobs
              n_permutations random_seed s t split (sections_of rows n_jobs)
              ltac:(eapply lookup_weaken; [exact Ht|];
                    transitivity (heap st1); assumption)
              Hp Hn Hall' Hne Hnil) as (s' & Hperm & _).
  rewrite Hcat in Hperm.
  eexists. exists s'. split; [exact Hperm|]. split.
  - apply List.length_map.
  - unfold flatten.
    rewrite (concat_rows_length
               (fun x (d : list R * rng_state) => f d.1 x)).
    rewrite permutation_draws_length. reflexivity.
Qed.

End Phases.

(** ** Examples *)

#[local] Existing Instance Toy.counter_externals.

Lemma one_feature_target :
  heap Toy.one_feature !! Toy.target = Some (Arr1 [0; 2; 5; 7]%R).
Proof. reflexivity. Qed.

Lemma one_feature_features :
  heap Toy.one_feature !! Toy.features = Some (Arr2 [[1; 1; 1; 1]%R]).
Proof. reflexivity. Qed.

Lemma two_features_target :
  heap Toy.two_features !! Toy.target = Some (Arr1 [0; 2; 5; 7]%R).
Proof. reflexivity. Qed.

Lemma two_features_features :
  heap Toy.two_features !! Toy.features =
  Some (Arr2 [[1; 1; 1; 1]; [7; 5; 2; 0]]%R).
Proof. reflexivity. Qed.

Lemma first_of_target_pure :
  pure_scoring Toy.first_of_target (fun t _ => List.nth 0 t 0%R).
Proof. intros t x g. reflexivity. Qed.

(** The shuffles of two rounds: the second round shuffles what the first
    left, which is not what a shuffle of the original target gives. *)
Lemma cumulative_is_not_reset :
  List.map fst (permutation_draws [0; 2; 5; 7]%R 2 (np_seed 0)) =
    [[2; 5; 7; 0]; [5; 7; 0; 2]]%R /\
  List.map fst (reset_draws [0; 2; 5; 7]%R 2 (np_seed 0)) =
    [[2; 5; 7; 0]; [2; 5; 7; 0]]%R /\
  permutation_draws [0; 2; 5; 7]%R 2 (np_seed 0) <>
  reset_draws [0; 2; 5; 7]%R 2 (np_seed 0).
Proof.
  split; [reflexivity|]. split; [reflexivity|].
  intros E. cbn in E. injection E as E _. lra.
Qed.

Lemma toy_bootstrap_columns :
  List.map (bootstrap_column Toy.first_of_target [0; 2; 5; 7]%R
                             [[1; 1; 1; 1]%R])
           (bootstrap_draws 4 2 (np_seed 0)) = [[0]; [2]]%R.
Proof. reflexivity. Qed.

Lemma np_std_0_2 : np_std [0; 2]%R = fin 1.
Proof.
  rewrite np_std_cons.
  replace (mean (List.map (fun y => ((y - mean [0; 2]) * (y - mean [0; 2]))%R)
                          [0; 2]%R)) with 1%R
    by (unfold mean, Rsum; simpl; field).
  rewrite sqrt_1. reflexivity.
Qed.

Lemma norm_ppf_table_95 :
  Toy.norm_ppf_table (95 / 100) = (16448536269514722 / 10000000000000000)%R.
Proof. unfold Toy.norm_ppf_table. destruct (Rle_dec _ _); [reflexivity|lra]. Qed.

Lemma norm_ppf_table_975 :
  Toy.norm_ppf_table ((1 + 95 / 100) / 2) =
  (1959963984540054 / 1000000000000000)%R.
Proof. unfold Toy.norm_ppf_table. destruct (Rle_dec _ _); [lra|reflexivity]. Qed.

(** C2, counterexample.  With the confidence 0.95, two samplings and a
    target of four samples (sample size three), the scores of the feature in
    the two rounds are 0 and 2, of standard deviation 1, and the half-width
    that [compute_confidence_interval] returns is
    [norm_ppf 0.95 * 1 / sqrt 2], with norm.ppf(0.95) = 1.6448...; it is not
    the product with the two-sided quantile, norm.ppf(0.975) = 1.9599.... *)
Lemma half_width_is_not_two_sided :
  let columns :=
    List.map (bootstrap_column Toy.first_of_target [0; 2; 5; 7]%R
                               [[1; 1; 1; 1]%R])
             (bootstrap_draws 4 (Z.to_nat 2) (np_seed 0)) in
  exists (w stdev : R) (st' : state),
    compute_confidence_interval Toy.target Toy.features Toy.first_of_target
      2 (95 / 100) 0 Toy.one_feature = Ok ([fin w], st') /\
    np_std (List.map (fun col => List.nth 0 col 0%R) columns) = fin stdev /\
    w = (16448536269514722 / 10000000000000000 * stdev / sqrt 2)%R /\
    two_sided_quantile (95 / 100) = (1959963984540054 / 1000000000000000)%R /\
    w <> (two_sided_quantile (95 / 100) * stdev / sqrt 2)%R.
Proof.
  intros columns.
  assert (Hq : (0 < sqrt 2)%R) by (apply sqrt_lt_R0; lra).
  exists (norm_ppf (95 / 100) * 1 / sqrt 2)%R, 1%R. eexists.
  split; [|split; [|split; [|split]]].
  - rewrite (compute_confidence_interval_spec Toy.target Toy.features
               Toy.first_of_target 2 (95 / 100) 0 Toy.one_feature
               [0; 2; 5; 7]%R [[1; 1; 1; 1]%R]
               one_feature_target one_feature_features
               ltac:(discriminate) ltac:(discriminate)
               ltac:(repeat constructor) ltac:(lia)).
    change (Z.to_nat 2) with 2%nat. cbn [List.length].
    rewrite toy_bootstrap_columns.
    cbn [columns_to_rows List.seq List.map List.nth].
    unfold half_width. rewrite np_std_0_2. reflexivity.
  - unfold columns. change (Z.to_nat 2) with 2%nat.
    rewrite toy_bootstrap_columns. cbn [List.map List.nth].
    apply np_std_0_2.
  - change (norm_ppf (95 / 100)) with (Toy.norm_ppf_table (95 / 100)).
    rewrite norm_ppf_table_95. reflexivity.
  - unfold two_sided_quantile.
    change (norm_ppf ((1 + 95 / 100) / 2))
      with (Toy.norm_ppf_table ((1 + 95 / 100) / 2)).
    apply norm_ppf_table_975.
  - unfold two_sided_quantile.
    change (norm_ppf ((1 + 95 / 100) / 2))
      with (Toy.norm_ppf_table ((1 + 95 / 100) / 2)).
    change (norm_ppf (95 / 100)) with (Toy.norm_ppf_table (95 / 100)).
    rewrite norm_ppf_table_95, norm_ppf_table_975.
    intros E. unfold Rdiv in E.
    apply Rmult_eq_reg_r in E; [lra|].
    apply Rinv_neq_0_compat. lra.
Qed.

Lemma compute_confidence_interval_half_width_witness :
  let columns :=
    List.map (bootstrap_column Toy.first_of_target [0; 2; 5; 7]%R
                               [[1; 1; 1; 1]%R])
             (bootstrap_draws (List.length [0; 2; 5; 7]%R) (Z.to_nat 2)
                              (np_seed 0)) in
  exists (intervals : list float64) (st' : state),
    compute_confidence_interval Toy.target Toy.features Toy.first_of_target
      2 (95 / 100) 0 Toy.one_feature = Ok (intervals, st') /\
    List.length intervals = List.length [[1; 1; 1; 1]%R] /\
    forall j, (j < List.length [[1; 1; 1; 1]%R])%nat ->
      exists stdev : R,
        np_std (List.map (fun col => List.nth j col 0%R) columns)
          = fin stdev /\
        List.nth_error intervals j =
        Some (fin (norm_ppf (95 / 100) * stdev / sqrt (IZR 2))).
Proof.
  apply (compute_confidence_interval_half_width Toy.target Toy.features
           Toy.first_of_target 2 (95 / 100) 0 Toy.one_feature
           [0; 2; 5; 7]%R [[1; 1; 1; 1]%R]
           one_feature_target one_feature_features).
  - discriminate.
  - repeat constructor.
  - lra.
  - lia.
  - vm_compute. lia.
Defined.

Lemma permute_and_score_frame_witness :
  exists result st',
    permute_and_score Toy.target Toy.features Toy.noisy 3 0 Toy.one_feature
      = Ok (result, st') /\
    heap st' !! Toy.target = Some (Arr1 [0; 2; 5; 7]%R) /\
    heap st' !! Toy.features = Some (Arr2 [[1; 1; 1; 1]%R]) /\
    forall l, is_Some (heap Toy.one_feature !! l) ->
              heap st' !! l = heap Toy.one_feature !! l.
Proof.
  destruct (proj2 (permute_and_score_frame Toy.target Toy.features Toy.noisy
                     3 0 Toy.one_feature)
              [0; 2; 5; 7]%R [[1; 1; 1; 1]%R]
              one_feature_target one_feature_features
              ltac:(discriminate) ltac:(lia))
    as (result & st' & Hrun & Ht & Hf).
  exists result, st'. split; [exact Hrun|]. split; [exact Ht|].
  split; [exact Hf|].
  exact (proj1 (permute_and_score_frame Toy.target Toy.features Toy.noisy
                  3 0 Toy.one_feature) result st' Hrun).
Defined.

Lemma permute_and_score_cumulative_witness :
  exists (draws : list (list R * rng_state)) (st' : state),
    permute_and_score Toy.target Toy.features Toy.noisy 3 0 Toy.one_feature
      = Ok (columns_to_rows (List.length [[1; 1; 1; 1]%R])
              (List.map (permutation_column Toy.noisy [[1; 1; 1; 1]%R])
                        draws), st') /\
    List.length draws = Z.to_nat 3 /\
    (forall d, List.nth_error draws 0 = Some d ->
               d = np_shuffle [0; 2; 5; 7]%R (np_seed 0)) /\
    (forall i d_prev d,
       List.nth_error draws i = Some d_prev ->
       List.nth_error draws (S i) = Some d ->
       d = np_shuffle d_prev.1 d_prev.2) /\
    heap st' !! fresh (dom (heap Toy.one_feature)) =
      Some (Arr1 (last_value draws [0; 2; 5; 7]%R)) /\
    heap st' !! Toy.target = Some (Arr1 [0; 2; 5; 7]%R).
Proof.
  apply (permute_and_score_cumulative Toy.target Toy.features Toy.noisy 3 0
           Toy.one_feature [0; 2; 5; 7]%R [[1; 1; 1; 1]%R]
           one_feature_target one_feature_features).
  - discriminate.
  - lia.
Defined.

Lemma draws_independent_of_scoring_witness :
  let t := [0; 2; 5; 7]%R in
  let rows := [[1; 1; 1; 1]%R] in
  let bdraws :=
    bootstrap_draws (List.length t) (Z.to_nat 2) (np_seed 0) in
  let pdraws := permutation_draws t (Z.to_nat 3) (np_seed 0) in
  let intervals := fun function : scoring =>
    List.map (half_width (95 / 100) 2)
      (columns_to_rows (List.length rows)
         (List.map (bootstrap_column function t rows) bdraws)) in
  let null_scores := fun function : scoring =>
    columns_to_rows (List.length rows)
      (List.map (permutation_column function rows) pdraws) in
  (exists s1 s2,
     compute_confidence_interval Toy.target Toy.features Toy.first_of_target
       2 (95 / 100) 0 Toy.one_feature
       = Ok (intervals Toy.first_of_target, s1) /\
     compute_confidence_interval Toy.target Toy.features Toy.noisy
       2 (95 / 100) 0 Toy.one_feature = Ok (intervals Toy.noisy, s2) /\
     rng s1 = last_rng bdraws (np_seed 0) /\
     rng s2 = rng s1) /\
  (exists s1 s2,
     permute_and_score Toy.target Toy.features Toy.first_of_target 3 0
       Toy.one_feature = Ok (null_scores Toy.first_of_target, s1) /\
     permute_and_score Toy.target Toy.features Toy.noisy 3 0
       Toy.one_feature = Ok (null_scores Toy.noisy, s2) /\
     rng s1 = last_rng pdraws (np_seed 0) /\
     rng s2 = rng s1 /\ heap s2 = heap s1).
Proof.
  apply (draws_independent_of_scoring Toy.target Toy.features
           Toy.first_of_target Toy.noisy 2 3 (95 / 100) 0 Toy.one_feature
           [0; 2; 5; 7]%R [[1; 1; 1; 1]%R]
           one_feature_target one_feature_features).
  - discriminate.
  - discriminate.
  - repeat constructor.
  - lia.
  - lia.
Defined.



Ltac decide_comparisons :=
  repeat match goal with
         | |- context [Rleb ?a ?b] =>
             let E := fresh "E" in
             destruct (Rleb a b) eqn:E;
             [apply Rleb_true in E
             |assert (~ (a <= b)%R)
                by (let Hc := fresh in
                    intros Hc; apply Rleb_true in Hc; congruence)];
             first [solve [exfalso; lra] | idtac]
         | |- context [Rltb ?a ?b] =>
             let E := fresh "E" in
             destruct (Rltb a b) eqn:E;
             [apply Rltb_true in E
             |assert (~ (a < b)%R)
                by (let Hc := fresh in
                    intros Hc; apply Rltb_true in Hc; congruence)];
             first [solve [exfalso; lra] | idtac]
         end.

(** C3, the code on the scores 2 and 5 and the null pool 1, 2, 3, 4.
    [compute_p_value] gives the one-sided p-values 3/4 and 1/4 (the floor)
    for [greater], and 2/4 and 1 for not [greater], as the claim says, and
    their elementwise minimum would be 2/4 and 1/4.  But
    [compute_p_values_and_fdrs], the function that is to take that minimum in
    its line 183, raises a TypeError in its line 180, here and on every
    input: the program produces no two-sided p-value. *)
Theorem two_sided_p_values_not_produced :
  List.map (fun v => compute_p_value v [1; 2; 3; 4]%R true) [2; 5]%R
    = [fin (3 / 4); fin (1 / 4)] /\
  List.map (fun v => compute_p_value v [1; 2; 3; 4]%R false) [2; 5]%R
    = [fin (2 / 4); fin 1] /\
  where_lt [fin (3 / 4); fin (1 / 4)] [fin (2 / 4); fin 1]
    = [fin (2 / 4); fin (1 / 4)] /\
  compute_p_values_and_fdrs [2; 5]%R [1; 2; 3; 4]%R = Err TypeError /\
  (forall (E : Externals) (values random_values : list R),
     compute_p_values_and_fdrs values random_values = Err TypeError).
Proof.
  split; [|split; [|split; [|split]]].
  - cbn [List.map].
    rewrite !compute_p_value_greater by discriminate.
    unfold count_le_right. cbn [List.filter List.length].
    decide_comparisons. cbn [List.length floored_fraction].
    repeat f_equal; simpl; lra.
  - cbn [List.map].
    rewrite !compute_p_value_not_greater by discriminate.
    unfold count_le_left. cbn [List.filter List.length].
    decide_comparisons. cbn [List.length floored_fraction].
    repeat f_equal; simpl; lra.
  - unfold where_lt. cbn [List.map List.combine fst snd f64_ltb].
    decide_comparisons. reflexivity.
  - reflexivity.
  - intros E values random_values. reflexivity.
Qed.

(** C1, the code at [n_samplings = 1] and [n_permutations = 0].  [match]
    prints "Skipping because n_samplings < 2." and computes the interval all
    the same: the selected feature gets the interval 0, not an undefined one.
    It prints "Skipping because n_perm < 1.", builds the (empty) matrix of
    permutation scores, and then raises a TypeError in
    [compute_p_values_and_fdrs] instead of going on. *)
Theorem skipping_is_only_printed :
  exists split st1 st2 null_scores st3,
    match_scores Toy.target Toy.features Toy.first_of_target 1
                 Toy.one_feature = Ok ((split, [0%R]), st1) /\
    match_confidence_intervals Toy.target Toy.features Toy.first_of_target
      [0%R] (Some 1%R) 1 (95 / 100) 0 st1 = Ok ([fin 0], st2) /\
    List.In SkippingSamplings (stdout st2) /\
    match_permutation_scores Toy.target split Toy.first_of_target 1 0 0 st2
      = Ok (null_scores, st3) /\
    List.In SkippingPermutations (stdout st3) /\
    match_ Toy.target Toy.features Toy.first_of_target 1 (Some 1%R) 1
           (95 / 100) 0 0 Toy.one_feature = Err TypeError.
Proof.
  destruct (match_scores_spec Toy.target Toy.features Toy.first_of_target
              (fun t _ => List.nth 0 t 0%R) 1 Toy.one_feature
              [0; 2; 5; 7]%R [[1; 1; 1; 1]%R]
              one_feature_target one_feature_features
              first_of_target_pure ltac:(cbn; lia))
    as (split & st1 & Hrun1 & Hsub1 & Hall1).
  cbn [List.map List.nth] in Hrun1.
  assert (Ht1 : heap st1 !! Toy.target = Some (Arr1 [0; 2; 5; 7]%R))
    by (eapply lookup_weaken; [apply one_feature_target|exact Hsub1]).
  assert (Hf1 : heap st1 !! Toy.features = Some (Arr2 [[1; 1; 1; 1]%R]))
    by (eapply lookup_weaken; [apply one_feature_features|exact Hsub1]).
  destruct (match_confidence_intervals_single Toy.target Toy.features
              Toy.first_of_target [0%R] (Some 1%R) (95 / 100) 0 st1
              [0; 2; 5; 7]%R [[1; 1; 1; 1]%R] Ht1 Hf1
              ltac:(discriminate) ltac:(repeat constructor)
              ltac:(discriminate) ltac:(repeat constructor))
    as (st2 & Hci & Hskip & Hsub2).
  change (get_top_and_bottom_indices [0%R] (Some 1%R)) with [O] in Hci.
  cbn [assign_at List.repeat List.length] in Hci.
  change (<[ O := fin 0 ]> [nan]) with [fin 0] in Hci.
  destruct (sections_of_facts [[1; 1; 1; 1]%R] 1 ltac:(cbn; lia))
    as (Hcat & Hne & Hnil).
  assert (Hall2 : Forall2 (fun l chunk => heap st2 !! l = Some (Arr2 chunk))
                          split (sections_of [[1; 1; 1; 1]%R] 1)).
  { clear - Hall1 Hsub2. induction Hall1; constructor; [|assumption].
    eapply lookup_weaken; eassumption. }
  destruct (match_permutation_scores_spec Toy.target Toy.first_of_target
              (fun t _ => List.nth 0 t 0%R) 1 0 0 st2 [0; 2; 5; 7]%R
              split (sections_of [[1; 1; 1; 1]%R] 1)
              ltac:(eapply lookup_weaken; [exact Ht1|exact Hsub2])
              first_of_target_pure ltac:(lia) Hall2 Hne Hnil)
    as (st3 & Hperm & Hout).
  exists split, st1, st2. eexists. exists st3.
  split; [exact Hrun1|]. split; [exact Hci|]. split; [exact Hskip|].
  split; [exact Hperm|]. split.
  - rewrite Hout. apply List.in_or_app. right. right. left. reflexivity.
  - unfold match_.
    rewrite (bind_ok _ _ _ _ _ Hrun1). cbn [fst snd].
    rewrite (bind_ok _ _ _ _ _ Hci).
    rewrite (bind_ok _ _ _ _ _ Hperm).
    apply bind_err. reflexivity.
Qed.

(** C6, the code.  [match] returns no table, for any input: when its first
    three phases succeed, the call of [compute_p_values_and_fdrs] raises a
    TypeError, as it does here on a target of four samples and two features
    with the default kind of configuration. *)
Theorem match_never_returns :
  (forall (E : Externals) target features function n_jobs n_features
          n_samplings confidence n_permutations random_seed st,
     exists e,
       match_ target features function n_jobs n_features n_samplings
              confidence n_permutations random_seed st = Err e) /\
  match_ Toy.target Toy.features Toy.first_of_target 1 (Some 2%R) 2
         (95 / 100) 3 0 Toy.two_features = Err TypeError.
Proof.
  split.
  - intros. apply match_not_ok.
  - vm_compute. reflexivity.
Qed.

(** ** Examples of the further properties *)

Lemma no_features_target :
  heap Toy.no_features !! Toy.target = Some (Arr1 [0; 2; 5; 7]%R).
Proof. reflexivity. Qed.

Lemma no_features_features :
  heap Toy.no_features !! Toy.features = Some (Arr2 []).
Proof. reflexivity. Qed.



Lemma one_sided_p_values_cover_witness :
  exists p_f p_r : R,
    compute_p_value 5 [1; 2; 3; 4]%R true = fin p_f /\
    compute_p_value 5 [1; 2; 3; 4]%R false = fin p_r /\
    (1 <= p_f + p_r)%R.
Proof.
  apply (one_sided_p_values_cover 5 [1; 2; 3; 4]%R). discriminate.
Defined.

Lemma compute_p_value_monotone_witness :
  exists p1 p2 q1 q2 : R,
    compute_p_value 1 [1; 2; 3; 4]%R true = fin p1 /\
    compute_p_value 2 [1; 2; 3; 4]%R true = fin p2 /\
    compute_p_value 1 [1; 2; 3; 4]%R false = fin q1 /\
    compute_p_value 2 [1; 2; 3; 4]%R false = fin q2 /\
    (p2 <= p1)%R /\ (q1 <= q2)%R.
Proof.
  apply (compute_p_value_monotone 1 2 [1; 2; 3; 4]%R).
  - discriminate.
  - lra.
Defined.

Lemma compute_p_value_extreme_witness :
  (compute_p_value 5 [1; 2; 3; 4]%R true
     = fin (1 / INR (List.length [1; 2; 3; 4]%R)) /\
   compute_p_value 5 [1; 2; 3; 4]%R false = fin 1) /\
  (compute_p_value 0 [1; 2; 3; 4]%R true = fin 1 /\
   compute_p_value 0 [1; 2; 3; 4]%R false
     = fin (1 / INR (List.length [1; 2; 3; 4]%R))).
Proof.
  split.
  - apply (proj1 (compute_p_value_extreme 5 [1; 2; 3; 4]%R
                    ltac:(discriminate))).
    intros x Hx. cbn in Hx.
    destruct Hx as [<-|[<-|[<-|[<-|[]]]]]; lra.
  - apply (proj2 (compute_p_value_extreme 0 [1; 2; 3; 4]%R
                    ltac:(discriminate))).
    intros x Hx. cbn in Hx.
    destruct Hx as [<-|[<-|[<-|[<-|[]]]]]; lra.
Defined.

Lemma compute_p_value_nan_iff_witness :
  compute_p_value 1 [] true = nan /\ [2%R] <> [].
Proof.
  split.
  - apply (proj2 (compute_p_value_nan_iff 1 [] true)). reflexivity.
  - intros E.
    pose proof (proj2 (compute_p_value_nan_iff 1 [2%R] true) E) as Hn.
    rewrite compute_p_value_greater in Hn by discriminate. discriminate.
Defined.

Lemma score_result_witness :
  (exists scores st',
     score Toy.target Toy.features Toy.noisy Toy.one_feature
       = Ok (scores, st') /\
     List.length scores = List.length [[1; 1; 1; 1]%R] /\
     heap st' = heap Toy.one_feature /\
     stdout st' = stdout Toy.one_feature) /\
  score Toy.target Toy.features Toy.noisy Toy.no_features = Err ValueError.
Proof.
  split.
  - apply (proj1 (score_result Toy.target Toy.features Toy.noisy
                    Toy.one_feature [0; 2; 5; 7]%R [[1; 1; 1; 1]%R]
                    one_feature_target one_feature_features)).
    discriminate.
  - apply (proj2 (score_result Toy.target Toy.features Toy.noisy
                    Toy.no_features [0; 2; 5; 7]%R []
                    no_features_target no_features_features)).
    reflexivity.
Defined.

Lemma permute_and_score_shape_witness :
  exists result st',
    permute_and_score Toy.target Toy.features Toy.noisy 3 0 Toy.one_feature
      = Ok (result, st') /\
    List.length result = List.length [[1; 1; 1; 1]%R] /\
    Forall (fun row => List.length row = Z.to_nat 3) result.
Proof.
  apply (permute_and_score_shape Toy.target Toy.features Toy.noisy 3 0
           Toy.one_feature [0; 2; 5; 7]%R [[1; 1; 1; 1]%R]
           one_feature_target one_feature_features).
  - discriminate.
  - lia.
Defined.

Lemma permute_and_score_errors_witness :
  permute_and_score Toy.target Toy.features Toy.noisy (-1) 0 Toy.one_feature
    = Err ValueError /\
  permute_and_score Toy.target Toy.features Toy.noisy 2 0 Toy.no_features
    = Err ValueError /\
  exists st',
    permute_and_score Toy.target Toy.features Toy.noisy 0 0 Toy.no_features
      = Ok ([], st').
Proof.
  split; [|split].
  - apply (proj1 (permute_and_score_errors Toy.target Toy.features Toy.noisy
                    (-1) 0 Toy.one_feature [0; 2; 5; 7]%R [[1; 1; 1; 1]%R]
                    one_feature_target one_feature_features)).
    lia.
  - apply (proj1 (proj2 (permute_and_score_errors Toy.target Toy.features
                           Toy.noisy 2 0 Toy.no_features [0; 2; 5; 7]%R []
                           no_features_target no_features_features))).
    + reflexivity.
    + lia.
  - apply (proj2 (proj2 (permute_and_score_errors Toy.target Toy.features
                           Toy.noisy 0 0 Toy.no_features [0; 2; 5; 7]%R []
                           no_features_target no_features_features))).
    + reflexivity.
    + reflexivity.
Defined.

Lemma permute_and_score_reseeds_witness :
  exists result s1 s2,
    permute_and_score Toy.target Toy.features Toy.noisy 3 0 Toy.one_feature
      = Ok (result, s1) /\
    permute_and_score Toy.target Toy.features Toy.noisy 3 0
      Toy.one_feature_later
      = Ok (result, s2) /\
    rng s1 = rng s2.
Proof.
  apply (permute_and_score_reseeds Toy.target Toy.features Toy.noisy 3 0
           Toy.one_feature
           Toy.one_feature_later
           [0; 2; 5; 7]%R [[1; 1; 1; 1]%R]
           one_feature_target one_feature_features
           one_feature_target one_feature_features).
  - discriminate.
  - lia.
Defined.

Lemma compute_confidence_interval_reseeds_witness :
  exists intervals s1 s2,
    compute_confidence_interval Toy.target Toy.features Toy.noisy 2
      (95 / 100) 0 Toy.one_feature = Ok (intervals, s1) /\
    compute_confidence_interval Toy.target Toy.features Toy.noisy 2
      (95 / 100) 0 Toy.one_feature_later
      = Ok (intervals, s2) /\
    rng s1 = rng s2.
Proof.
  apply (compute_confidence_interval_reseeds Toy.target Toy.features
           Toy.noisy 2 (95 / 100) 0 Toy.one_feature
           Toy.one_feature_later
           [0; 2; 5; 7]%R [[1; 1; 1; 1]%R]
           one_feature_target one_feature_features
           one_feature_target one_feature_features).
  - discriminate.
  - discriminate.
  - repeat constructor.
  - lia.
Defined.

Lemma compute_confidence_interval_defined_witness :
  compute_confidence_interval Toy.target Toy.features Toy.noisy (-1)
    (95 / 100) 0 Toy.one_feature = Err ValueError /\
  (exists st',
     compute_confidence_interval Toy.target Toy.features Toy.noisy 0
       (95 / 100) 0 Toy.one_feature
     = Ok (List.repeat nan (List.length [[1; 1; 1; 1]%R]), st')) /\
  (exists intervals st',
     compute_confidence_interval Toy.target Toy.features Toy.noisy 1
       (95 / 100) 0 Toy.one_feature = Ok (intervals, st') /\
     List.length intervals = List.length [[1; 1; 1; 1]%R] /\
     Forall (fun x => exists w : R, x = fin w) intervals).
Proof.
  split; [|split].
  - apply (proj1 (compute_confidence_interval_defined Toy.target Toy.features
                    Toy.noisy (-1) (95 / 100) 0 Toy.one_feature
                    [0; 2; 5; 7]%R [[1; 1; 1; 1]%R]
                    one_feature_target one_feature_features
                    ltac:(discriminate) ltac:(discriminate)
                    ltac:(repeat constructor) ltac:(lra))).
    lia.
  - apply (proj1 (proj2 (compute_confidence_interval_defined Toy.target
                           Toy.features Toy.noisy 0 (95 / 100) 0
                           Toy.one_feature [0; 2; 5; 7]%R [[1; 1; 1; 1]%R]
                           one_feature_target one_feature_features
                           ltac:(discriminate) ltac:(discriminate)
                           ltac:(repeat constructor) ltac:(lra)))).
    reflexivity.
  - apply (proj2 (proj2 (compute_confidence_interval_defined Toy.target
                           Toy.features Toy.noisy 1 (95 / 100) 0
                           Toy.one_feature [0; 2; 5; 7]%R [[1; 1; 1; 1]%R]
                           one_feature_target one_feature_features
                           ltac:(discriminate) ltac:(discriminate)
                           ltac:(repeat constructor) ltac:(lra)))).
    lia.
Defined.

Lemma compute_confidence_interval_sign_witness :
  exists intervals st',
    compute_confidence_interval Toy.target Toy.features Toy.noisy 2
      (95 / 100) 0 Toy.one_feature = Ok (intervals, st') /\
    Forall (fun x => exists w : R,
              x = fin w /\
              ((0 <= norm_ppf (95 / 100))%R -> (0 <= w)%R) /\
              ((norm_ppf (95 / 100) <= 0)%R -> (w <= 0)%R)) intervals.
Proof.
  apply (compute_confidence_interval_sign Toy.target Toy.features Toy.noisy
           2 (95 / 100) 0 Toy.one_feature [0; 2; 5; 7]%R [[1; 1; 1; 1]%R]
           one_feature_target one_feature_features).
  - discriminate.
  - discriminate.
  - repeat constructor.
  - lra.
  - lia.
Defined.

Lemma compute_confidence_interval_frame_witness :
  exists intervals st',
    compute_confidence_interval Toy.target Toy.features Toy.noisy 2
      (95 / 100) 0 Toy.one_feature = Ok (intervals, st') /\
    heap st' !! Toy.target = Some (Arr1 [0; 2; 5; 7]%R) /\
    heap st' !! Toy.features = Some (Arr2 [[1; 1; 1; 1]%R]).
Proof.
  eexists. eexists.
  pose proof (compute_confidence_interval_spec Toy.target Toy.features
                Toy.noisy 2 (95 / 100) 0 Toy.one_feature
                [0; 2; 5; 7]%R [[1; 1; 1; 1]%R]
                one_feature_target one_feature_features
                ltac:(discriminate) ltac:(discriminate)
                ltac:(repeat constructor) ltac:(lia)) as Hrun.
  cbv zeta in Hrun.
  split; [exact Hrun|]. split.
  - exact (compute_confidence_interval_frame _ _ _ _ _ _ _ _ _ Hrun
             Toy.target _ one_feature_target).
  - exact (compute_confidence_interval_frame _ _ _ _ _ _ _ _ _ Hrun
             Toy.features _ one_feature_features).
Defined.

Lemma compute_confidence_interval_no_features_witness :
  compute_confidence_interval Toy.target Toy.features Toy.noisy 30
    (95 / 100) 0
    Toy.no_features
  = Err ValueError.
Proof.
  apply (compute_confidence_interval_no_features Toy.target Toy.features
           Toy.noisy 30 (95 / 100) 0 Toy.no_features [0; 2; 5; 7]%R
           no_features_target no_features_features).
Defined.


Lemma sample_size_bounds_witness :
  (sample_size 4 <= 4)%nat /\
  (sample_size 4 <= sample_size 10)%nat /\
  sample_size 0 = O /\
  (sample_size 3 < 3)%nat /\
  ~ (sample_size 4 < 3)%nat.
Proof.
  split; [|split; [|split; [|split]]].
  - apply (proj1 (sample_size_bounds 4)).
  - apply (proj1 (proj2 (sample_size_bounds 4))). lia.
  - apply (proj2 (proj1 (proj2 (proj2 (sample_size_bounds 0))))). reflexivity.
  - apply (proj2 (proj2 (proj2 (proj2 (sample_size_bounds 3))))). lia.
  - intros Hlt.
    pose proof (proj1 (proj2 (proj2 (proj2 (sample_size_bounds 4)))) Hlt).
    lia.
Defined.

Lemma array_split_sections_witness :
  array_split Toy.features 0 Toy.two_features = Err ValueError /\
  exists ls st',
    array_split Toy.features 2 Toy.two_features = Ok (ls, st') /\
    List.length ls = Z.to_nat 2 /\
    Forall2 (fun l chunk => heap st' !! l = Some (Arr2 chunk))
            ls (sections_of [[1; 1; 1; 1]; [7; 5; 2; 0]]%R 2) /\
    List.concat (sections_of [[1; 1; 1; 1]; [7; 5; 2; 0]]%R 2)
      = [[1; 1; 1; 1]; [7; 5; 2; 0]]%R /\
    Forall (fun chunk =>
              List.length chunk
                = (List.length [[1; 1; 1; 1]; [7; 5; 2; 0]]%R
                   / Z.to_nat 2)%nat \/
              List.length chunk
                = (List.length [[1; 1; 1; 1]; [7; 5; 2; 0]]%R
                   / Z.to_nat 2 + 1)%nat)
           (sections_of [[1; 1; 1; 1]; [7; 5; 2; 0]]%R 2) /\
    forall l a, heap Toy.two_features !! l = Some a ->
                heap st' !! l = Some a.
Proof.
  split.
  - apply (proj1 (array_split_sections Toy.features 0 Toy.two_features
                    _ two_features_features)).
    lia.
  - apply (proj2 (array_split_sections Toy.features 2 Toy.two_features
                    _ two_features_features)).
    lia.
Defined.

Lemma match_rejects_n_jobs_witness :
  match_scores Toy.target Toy.features Toy.noisy 2 Toy.one_feature
    = Err ValueError /\
  match_ Toy.target Toy.features Toy.noisy 2 (Some 1%R) 30 (95 / 100) 30 0
         Toy.one_feature = Err ValueError.
Proof.
  apply (match_rejects_n_jobs Toy.target Toy.features Toy.noisy 2
           (Some 1%R) 30 (95 / 100) 30 0 Toy.one_feature
           [0; 2; 5; 7]%R [[1; 1; 1; 1]%R]
           one_feature_target one_feature_features).
  right. cbn. lia.
Defined.

Lemma unselected_features_have_no_interval_witness :
  @get_top_and_bottom_indices Toy.first_only [0; 0]%R (Some 1%R) = [O] /\
  exists intervals st',
    @match_confidence_intervals Toy.first_only Toy.target Toy.features
      Toy.first_of_target [0; 0]%R (Some 1%R) 1 (95 / 100) 0
      Toy.two_features_first_only = Ok (intervals, st') /\
    List.length intervals = List.length [0; 0]%R /\
    List.nth_error intervals 1 = Some nan.
Proof.
  split; [reflexivity|].
  destruct (@match_confidence_intervals_single Toy.first_only
              Toy.target Toy.features Toy.first_of_target [0; 0]%R
              (Some 1%R) (95 / 100) 0 Toy.two_features_first_only
              [0; 2; 5; 7]%R [[1; 1; 1; 1]; [7; 5; 2; 0]]%R
              ltac:(reflexivity) ltac:(reflexivity)
              ltac:(discriminate) ltac:(repeat constructor)
              ltac:(discriminate) ltac:(repeat constructor; cbn; lia))
    as (st' & Hrun & _).
  eexists. exists st'. split; [exact Hrun|].
  destruct (@unselected_features_have_no_interval Toy.first_only
              _ _ _ _ _ _ _ _ _ _ _ Hrun) as (Hlen & Hnan).
  split; [exact Hlen|].
  apply Hnan.
  - cbn. lia.
  - intros [E|[]]. discriminate.
Defined.

Lemma null_pool_size_witness :
  exists split scores st1,
    match_scores Toy.target Toy.features Toy.first_of_target 2
                 Toy.two_features = Ok ((split, scores), st1) /\
    List.length scores = List.length [[1; 1; 1; 1]; [7; 5; 2; 0]]%R /\
    forall s, heap st1 ⊆ heap s ->
      exists null_scores s',
        match_permutation_scores Toy.target split Toy.first_of_target 2 3 0
                                 s = Ok (null_scores, s') /\
        List.length null_scores
          = List.length [[1; 1; 1; 1]; [7; 5; 2; 0]]%R /\
        List.length (flatten null_scores) =
          (List.length [[1; 1; 1; 1]; [7; 5; 2; 0]]%R * Z.to_nat 3)%nat.
Proof.
  apply (null_pool_size Toy.target Toy.features Toy.first_of_target
           (fun t _ => List.nth 0 t 0%R) 2 3 0 Toy.two_features
           [0; 2; 5; 7]%R [[1; 1; 1; 1]; [7; 5; 2; 0]]%R
           two_features_target two_features_features first_of_target_pure).
  - cbn. lia.
  - lia.
Defined.

Lemma compute_confidence_interval_single_sampling_witness :
  exists st',
    compute_confidence_interval Toy.target Toy.features Toy.noisy 1
      (95 / 100) 0 Toy.one_feature
    = Ok (List.repeat (fin 0) (List.length [[1; 1; 1; 1]%R]), st').
Proof.
  apply (compute_confidence_interval_single_sampling Toy.target Toy.features
           Toy.noisy (95 / 100) 0 Toy.one_feature
           [0; 2; 5; 7]%R [[1; 1; 1; 1]%R]
           one_feature_target one_feature_features).
  - discriminate.
  - discriminate.
  - repeat constructor.
  - lra.
Defined.


Lemma compute_p_value_one_sided_witness :
  exists c_f c_r : nat,
    cardinality (fun x => (2 <= x)%R) [1; 2; 3; 4]%R c_f /\
    cardinality (fun x => (x <= 2)%R) [1; 2; 3; 4]%R c_r /\
    compute_p_value 2 [1; 2; 3; 4]%R true
      = fin (if Nat.eqb c_f 0 then 1 / INR (List.length [1; 2; 3; 4]%R)
             else INR c_f / INR (List.length [1; 2; 3; 4]%R)) /\
    compute_p_value 2 [1; 2; 3; 4]%R false
      = fin (if Nat.eqb c_r 0 then 1 / INR (List.length [1; 2; 3; 4]%R)
             else INR c_r / INR (List.length [1; 2; 3; 4]%R)).
Proof.
  apply (compute_p_value_one_sided 2 [1; 2; 3; 4]%R). discriminate.
Defined.
